(** * The database signals polling service

    A shallow embedding of [DatabaseSignalsPollingService]
    (services/database-signals-polling.ts): the class fields become the record
    [Service], the JavaScript host (clock, timers, outgoing requests and
    callback invocations) becomes the record [Runtime], and every method is a
    computation in a small state-and-exception monad [M] over the two.

    Conventions of the embedding.
    - An instant is its number of milliseconds since the epoch ([Z]); the ISO
      string that [new Date().toISOString()] renders for it is represented by
      the instant itself, so [lastPollTime] is an [option Z].
    - [null] and [undefined] are [None].  JavaScript truthiness is written out
      where the source relies on it: a timer handle is a [positive] (never 0),
      a string is falsy exactly when it is empty.
    - The two remote collaborators are not part of the program: the reply each
      [fetch] receives, and the time it takes, are arguments ([Net]).
    - A callback is an opaque handle; calling it appends an entry to the
      runtime's [trace].  Callbacks are assumed to return normally and not to
      call back into the service.
    - An [async] method runs to completion once started: a cycle is one
      computation, and no other event is interleaved between its awaits.
    - The clock does not run backwards: time passes by a natural number of
      milliseconds, while a request is pending or between events.
    - [console] output is not part of the model. *)

From stdpp Require Import gmap strings list pretty.
From Stdlib Require Import ZArith Lia.

Local Open Scope Z_scope.

(** ** Data *)

Module DatabaseSignal.
Record t := mk {
  id : string;
  ea : string;
  asset : string;
  latestupdate : string;
  type : string;
  action : string;
  price : string;
  tp : string;
  sl : string;
  time : string;
  results : string
}.
End DatabaseSignal.

(** The identity of a function value passed as [onSignalFound] or [onError]. *)
Definition Callback := nat.

(** What the service does to the outside world, in the order it does it. *)
Inductive Effect :=
| HttpGetEA (licenseKey : string)
| HttpGetSignals (eaId : string) (since : Z) (abortAfter : Z)
| SignalFound (cb : Callback) (signal : DatabaseSignal.t)
| ErrorReported (cb : Callback) (message : string).

(** The fields of [class DatabaseSignalsPollingService]. *)
Record Service := mkService {
  isEnabled : bool;
  intervalId : option positive;
  onSignalFound : option Callback;
  onError : option Callback;
  currentLicenseKey : option string;
  currentEA : option string;
  lastPollTime : option Z;
  eaCache : gmap string (option string * Z);
  consecutiveErrors : nat
}.

(** The closure handed to [setInterval]: the mock generator of
    [startMockPolling], or the polling tick of [startRealPolling], which
    captures the license key. *)
Inductive Job :=
| MockJob
| PollJob (licenseKey : string).

Record Interval := mkInterval {
  iv_handle : positive;
  iv_period : Z;
  iv_due : Z;
  iv_job : Job
}.

(** A pending [setTimeout]; the service only ever schedules its restart
    closure. *)
Record Pending := mkPending {
  pd_handle : positive;
  pd_due : Z
}.

Record Runtime := mkRuntime {
  clock : Z;
  nextHandle : positive;
  intervals : list Interval;
  timeouts : list Pending;
  trace : list Effect
}.

Record World := mkWorld {
  svc : Service;
  env : Runtime
}.

(** Field updates. *)
Definition set_isEnabled (v : bool) (s : Service) : Service :=
  mkService v (intervalId s) (onSignalFound s) (onError s) (currentLicenseKey s)
    (currentEA s) (lastPollTime s) (eaCache s) (consecutiveErrors s).
Definition set_intervalId (v : option positive) (s : Service) : Service :=
  mkService (isEnabled s) v (onSignalFound s) (onError s) (currentLicenseKey s)
    (currentEA s) (lastPollTime s) (eaCache s) (consecutiveErrors s).
Definition set_onSignalFound (v : option Callback) (s : Service) : Service :=
  mkService (isEnabled s) (intervalId s) v (onError s) (currentLicenseKey s)
    (currentEA s) (lastPollTime s) (eaCache s) (consecutiveErrors s).
Definition set_onError (v : option Callback) (s : Service) : Service :=
  mkService (isEnabled s) (intervalId s) (onSignalFound s) v (currentLicenseKey s)
    (currentEA s) (lastPollTime s) (eaCache s) (consecutiveErrors s).
Definition set_currentLicenseKey (v : option string) (s : Service) : Service :=
  mkService (isEnabled s) (intervalId s) (onSignalFound s) (onError s) v
    (currentEA s) (lastPollTime s) (eaCache s) (consecutiveErrors s).
Definition set_currentEA (v : option string) (s : Service) : Service :=
  mkService (isEnabled s) (intervalId s) (onSignalFound s) (onError s)
    (currentLicenseKey s) v (lastPollTime s) (eaCache s) (consecutiveErrors s).
Definition set_lastPollTime (v : option Z) (s : Service) : Service :=
  mkService (isEnabled s) (intervalId s) (onSignalFound s) (onError s)
    (currentLicenseKey s) (currentEA s) v (eaCache s) (consecutiveErrors s).
Definition set_eaCache (v : gmap string (option string * Z)) (s : Service) : Service :=
  mkService (isEnabled s) (intervalId s) (onSignalFound s) (onError s)
    (currentLicenseKey s) (currentEA s) (lastPollTime s) v (consecutiveErrors s).
Definition set_consecutiveErrors (v : nat) (s : Service) : Service :=
  mkService (isEnabled s) (intervalId s) (onSignalFound s) (onError s)
    (currentLicenseKey s) (currentEA s) (lastPollTime s) (eaCache s) v.

Definition set_clock (v : Z) (r : Runtime) : Runtime :=
  mkRuntime v (nextHandle r) (intervals r) (timeouts r) (trace r).
Definition set_nextHandle (v : positive) (r : Runtime) : Runtime :=
  mkRuntime (clock r) v (intervals r) (timeouts r) (trace r).
Definition set_intervals (v : list Interval) (r : Runtime) : Runtime :=
  mkRuntime (clock r) (nextHandle r) v (timeouts r) (trace r).
Definition set_timeouts (v : list Pending) (r : Runtime) : Runtime :=
  mkRuntime (clock r) (nextHandle r) (intervals r) v (trace r).
Definition set_trace (v : list Effect) (r : Runtime) : Runtime :=
  mkRuntime (clock r) (nextHandle r) (intervals r) (timeouts r) v.

(** ** The monad of methods: state, and JavaScript exceptions *)

Inductive Completion (A : Type) :=
| Normal (a : A)
| Abrupt (error : string).
Arguments Normal {A} a.
Arguments Abrupt {A} error.

Definition M (A : Type) : Type := World → Completion A * World.

#[global] Instance M_ret : MRet M := λ A a w, (Normal a, w).
#[global] Instance M_bind : MBind M := λ A B f m w,
  match m w with
  | (Normal a, w') => f a w'
  | (Abrupt e, w') => (Abrupt e, w')
  end.

(** [throw new Error(message)] *)
Definition throw {A} (message : string) : M A := λ w, (Abrupt message, w).

(** [try { body } catch (error) { handler }] *)
Definition try_catch {A} (body : M A) (handler : string → M A) : M A := λ w,
  match body w with
  | (Normal a, w') => (Normal a, w')
  | (Abrupt e, w') => handler e w'
  end.

(** [this.field], [this.field = v] and their runtime counterparts. *)
Definition this {A} (field : Service → A) : M A := λ w, (Normal (field (svc w)), w).
Definition assign (upd : Service → Service) : M unit :=
  λ w, (Normal tt, mkWorld (upd (svc w)) (env w)).
Definition host {A} (field : Runtime → A) : M A := λ w, (Normal (field (env w)), w).
Definition host_update (upd : Runtime → Runtime) : M unit :=
  λ w, (Normal tt, mkWorld (svc w) (upd (env w))).

(** [for (const x of xs) { body }] *)
Fixpoint for_of {A} (xs : list A) (body : A → M unit) : M unit :=
  match xs with
  | [] => mret tt
  | x :: rest => body x ;; for_of rest body
  end.

(** The world a computation leaves, and how it completed. *)
Definition exec {A} (m : M A) (w : World) : World := (m w).2.
Definition completion {A} (m : M A) (w : World) : Completion A := (m w).1.

(** ** The host: clock, timers, callbacks and [fetch] *)

(** [Date.now()] *)
Definition dateNow : M Z := host clock.

(** Time passing while an [await] is pending. *)
Definition elapse (d : N) : M unit :=
  host_update (λ r, set_clock (clock r + Z.of_N d) r).

Definition emit (e : Effect) : M unit :=
  host_update (λ r, set_trace (trace r ++ [e]) r).

Definition freshHandle : M positive :=
  h ← host nextHandle;
  host_update (set_nextHandle (Pos.succ h));;
  mret h.

Definition setInterval (job : Job) (period : Z) : M positive :=
  h ← freshHandle;
  now ← dateNow;
  host_update (λ r,
    set_intervals (intervals r ++ [mkInterval h period (now + period) job]) r);;
  mret h.

Definition clearInterval (h : positive) : M unit :=
  host_update (λ r,
    set_intervals (filter (λ iv, iv_handle iv ≠ h) (intervals r)) r).

Definition setTimeout (delay : Z) : M positive :=
  h ← freshHandle;
  now ← dateNow;
  host_update (λ r, set_timeouts (timeouts r ++ [mkPending h (now + delay)]) r);;
  mret h.

(** What comes back from a collaborator: the [fetch] promise rejects, or a
    response with a status arrives, whose body parses ([Some]) or makes
    [response.json()] reject ([None]). *)
Inductive Reply (A : Type) :=
| Unreachable
| Responded (status : Z) (body : option A).
Arguments Unreachable {A}.
Arguments Responded {A} status body.

Record Exchange (A : Type) := mkExchange {
  latency : N;
  reply : Reply A
}.
Arguments mkExchange {A} latency reply.
Arguments latency {A} e.
Arguments reply {A} e.

(** [response.ok] *)
Definition response_ok (status : Z) : bool :=
  (200 <=? status) && (status <=? 299).

(** [await fetch(url, { signal: AbortSignal.timeout(ms) })]: the request goes
    out; with a deadline that the reply does not beat, the promise rejects
    when the deadline expires. *)
Definition fetch {A} (request : Effect) (abortAfter : option Z) (x : Exchange A)
  : M (Z * option A) :=
  let deliver : M (Z * option A) :=
    elapse (latency x);;
    match reply x with
    | Unreachable => throw "TypeError: Network request failed"
    | Responded status body => mret (status, body)
    end in
  emit request;;
  match abortAfter with
  | Some ms =>
      if ms <=? Z.of_N (latency x)
      then elapse (Z.to_N ms);; throw "TimeoutError: The operation timed out"
      else deliver
  | None => deliver
  end.

(** [await response.json()] *)
Definition json {A} (response : Z * option A) : M A :=
  match response.2 with
  | Some data => mret data
  | None => throw "SyntaxError: JSON Parse error"
  end.

(** What the two collaborators answer during one cycle. *)
Record Net := mkNet {
  eaExchange : Exchange (option string);
  signalsExchange : Exchange (list DatabaseSignal.t)
}.

(** ** The service *)

Definition EA_CACHE_TTL : Z := 300000.
Definition maxConsecutiveErrors : nat := 3.
Definition POLL_PERIOD : Z := 30000.
Definition FETCH_DEADLINE : Z := 10000.
Definition RESTART_DELAY : Z := 300000.

(** JavaScript truthiness of a [string | null]. *)
Definition truthy (s : option string) : bool :=
  match s with
  | Some (String _ _) => true
  | _ => false
  end.

Definition enableDatabaseConnections : M unit :=
  assign (set_isEnabled true).

Definition stopPolling : M unit :=
  id ← this intervalId;
  match id with
  | Some h => clearInterval h;; assign (set_intervalId None)
  | None => mret tt
  end;;
  assign (set_currentLicenseKey None);;
  assign (set_currentEA None);;
  assign (set_lastPollTime None).

Definition disableDatabaseConnections : M unit :=
  assign (set_isEnabled false);;
  stopPolling.

Definition getEAFromLicense (licenseKey : string) (x : Exchange (option string))
  : M (option string) :=
  try_catch
    (cache ← this eaCache;
     now ← dateNow;
     let remote : M (option string) :=
       response ← fetch (HttpGetEA licenseKey) None x;
       if negb (response_ok response.1)
       then throw ("API call failed: " +:+ pretty response.1)
       else
         eaId ← json response;
         stamp ← dateNow;
         assign (λ s, set_eaCache (<[licenseKey := (eaId, stamp)]> (eaCache s)) s);;
         mret eaId in
     match cache !! licenseKey with
     | Some cached =>
         if now - cached.2 <? EA_CACHE_TTL then mret cached.1 else remote
     | None => remote
     end)
    (λ _, throw "Failed to fetch EA from license").

Definition getNewSignalsForEA (ea : string) (x : Exchange (list DatabaseSignal.t))
  : M (list DatabaseSignal.t) :=
  try_catch
    (last ← this lastPollTime;
     now ← dateNow;
     let since := match last with
                  | Some t => t
                  | None => now - 60 * 60 * 1000
                  end in
     response ← fetch (HttpGetSignals ea since FETCH_DEADLINE) (Some FETCH_DEADLINE) x;
     if negb (response_ok response.1)
     then throw ("API call failed: " +:+ pretty response.1)
     else
       signals ← json response;
       assign (set_consecutiveErrors 0%nat);;
       mret signals)
    (λ _,
     assign (λ s, set_consecutiveErrors (S (consecutiveErrors s)) s);;
     n ← this consecutiveErrors;
     (if bool_decide (maxConsecutiveErrors ≤ n)%nat
      then stopPolling;; setTimeout RESTART_DELAY;; mret tt
      else mret tt);;
     throw "Failed to fetch new signals").

(** The body of the loop over the signals found:
    [if (this.onSignalFound) this.onSignalFound(signal)]. *)
Definition deliver (signal : DatabaseSignal.t) : M unit :=
  cb ← this onSignalFound;
  match cb with
  | Some f => emit (SignalFound f signal)
  | None => mret tt
  end.

Definition checkForNewSignals (licenseKey : string) (net : Net) : M unit :=
  try_catch
    (ea ← getEAFromLicense licenseKey (eaExchange net);
     match ea with
     | Some (String c rest) =>
         let ea := String c rest in
         assign (set_currentEA (Some ea));;
         signals ← getNewSignalsForEA ea (signalsExchange net);
         for_of signals deliver;;
         now ← dateNow;
         assign (set_lastPollTime (Some now))
     | _ => mret tt
     end)
    (λ error, throw error).

(** The randomness and the number formatting of the mock generator are not
    modelled: the coin ([Math.random() > 0.5]), the three [toFixed(2)]
    strings and the ISO rendering of the current instant are given. *)
Record MockDraw := mkMockDraw {
  md_iso : string;
  md_buy : bool;
  md_price : string;
  md_tp : string;
  md_sl : string
}.

Definition mockSignal (now : Z) (d : MockDraw) : DatabaseSignal.t :=
  DatabaseSignal.mk ("mock-" +:+ pretty now) "MockEA" "XAUUSD" (md_iso d) "TRADE"
    (if md_buy d then "BUY" else "SELL") (md_price d) (md_tp d) (md_sl d)
    (md_iso d) "PENDING".

(** The closure each of the two [setInterval] calls installs. *)
Definition intervalCallback (job : Job) (net : Net) (draw : MockDraw) : M unit :=
  match job with
  | MockJob =>
      now ← dateNow;
      cb ← this onSignalFound;
      match cb with
      | Some f => emit (SignalFound f (mockSignal now draw))
      | None => mret tt
      end
  | PollJob licenseKey =>
      try_catch (checkForNewSignals licenseKey net)
        (λ error,
         cb ← this onError;
         match cb with
         | Some f => emit (ErrorReported f ("Database error: Error: " +:+ error))
         | None => mret tt
         end)
  end.

Definition startMockPolling (licenseKey : string) : M unit :=
  h ← setInterval MockJob POLL_PERIOD;
  assign (set_intervalId (Some h)).

(** The initial check only reaches its first [await] before [setInterval]
    runs: up to there it reads the cache and the clock and may send the
    resolution request, and writes nothing.  Everything the check writes
    happens after [intervalId] is assigned, so the timer is installed first
    and the check, with its [.catch] that only logs, runs after it. *)
Definition startRealPolling (licenseKey : string) (net : Net) : M unit :=
  h ← setInterval (PollJob licenseKey) POLL_PERIOD;
  assign (set_intervalId (Some h));;
  try_catch (checkForNewSignals licenseKey net) (λ _, mret tt).

Definition startPolling (licenseKey : string) (onSignalFound' onError' : option Callback)
  (net : Net) : M unit :=
  id ← this intervalId;
  match id with
  | Some _ => mret tt
  | None =>
      assign (set_onSignalFound onSignalFound');;
      assign (set_onError onError');;
      assign (set_currentLicenseKey (Some licenseKey));;
      now ← dateNow;
      assign (set_lastPollTime (Some now));;
      enabled ← this isEnabled;
      if negb enabled
      then startMockPolling licenseKey
      else startRealPolling licenseKey net
  end.

(** The closure [getNewSignalsForEA] hands to [setTimeout]. *)
Definition restartAfterCooldown (net : Net) : M unit :=
  key ← this currentLicenseKey;
  match key with
  | Some (String c rest) =>
      assign (set_consecutiveErrors 0%nat);;
      f ← this onSignalFound;
      g ← this onError;
      startPolling (String c rest) f g net
  | _ => mret tt
  end.

Definition isRunning (s : Service) : bool :=
  match intervalId s with
  | Some _ => true
  | None => false
  end.

(** [getStatus()] *)
Record Status := mkStatus {
  st_isRunning : bool;
  st_licenseKey : option string;
  st_ea : option string;
  st_lastPollTime : option Z;
  st_isEnabled : bool
}.

Definition getStatus (s : Service) : Status :=
  mkStatus (isRunning s) (currentLicenseKey s) (currentEA s) (lastPollTime s)
    (isEnabled s).

(** ** The event loop *)

(** What can happen to a service instance: time passes, the application calls
    a public method, or the host fires a timer that is due.  A timer that is
    not installed, or not yet due, does not fire. *)
Inductive Event :=
| Elapse (d : N)
| CallEnable
| CallDisable
| CallStart (licenseKey : string) (onSignalFound' onError' : option Callback) (net : Net)
| CallStop
| IntervalFires (h : positive) (net : Net) (draw : MockDraw)
| TimeoutFires (h : positive) (net : Net).

Definition fireInterval (h : positive) (net : Net) (draw : MockDraw) : M unit :=
  ivs ← host intervals;
  now ← dateNow;
  match List.find (λ iv, bool_decide (iv_handle iv = h)) ivs with
  | Some iv =>
      if iv_due iv <=? now
      then
        host_update (λ r, set_intervals
          ((λ i, if bool_decide (iv_handle i = h)
                 then mkInterval h (iv_period i) (now + iv_period i) (iv_job i)
                 else i) <$> intervals r) r);;
        intervalCallback (iv_job iv) net draw
      else mret tt
  | None => mret tt
  end.

Definition fireTimeout (h : positive) (net : Net) : M unit :=
  pending ← host timeouts;
  now ← dateNow;
  match List.find (λ p, bool_decide (pd_handle p = h)) pending with
  | Some p =>
      if pd_due p <=? now
      then
        host_update (λ r,
          set_timeouts (filter (λ p, pd_handle p ≠ h) (timeouts r)) r);;
        restartAfterCooldown net
      else mret tt
  | None => mret tt
  end.

Definition dispatch (e : Event) : M unit :=
  match e with
  | Elapse d => elapse d
  | CallEnable => enableDatabaseConnections
  | CallDisable => disableDatabaseConnections
  | CallStart licenseKey f g net => startPolling licenseKey f g net
  | CallStop => stopPolling
  | IntervalFires h net draw => fireInterval h net draw
  | TimeoutFires h net => fireTimeout h net
  end.

Definition step (w : World) (e : Event) : World := exec (dispatch e) w.

Definition run (es : list Event) (w : World) : World := fold_left step es w.

(** [new DatabaseSignalsPollingService()], in a host whose clock reads [t0]. *)
Definition newService : Service :=
  mkService true None None None None None None ∅ 0%nat.

Definition boot (t0 : Z) : World :=
  mkWorld newService (mkRuntime t0 1%positive [] [] []).

(** * Vocabulary of the statements *)

(** What a [fetch] with the source's checks hands to the caller: the body,
    when the reply beats the deadline (if there is one), carries an ok status
    and parses; nothing otherwise. *)
Definition payload {A} (deadline : option Z) (x : Exchange A) : option A :=
  let body :=
    match reply x with
    | Responded status (Some a) => if response_ok status then Some a else None
    | _ => None
    end in
  match deadline with
  | Some ms => if ms <=? Z.of_N (latency x) then None else body
  | None => body
  end.

(** How long the caller waits for it. *)
Definition waited {A} (deadline : option Z) (x : Exchange A) : N :=
  match deadline with
  | Some ms => if ms <=? Z.of_N (latency x) then Z.to_N ms else latency x
  | None => latency x
  end.

(** The cache entry for [key] is missing or has outlived its TTL. *)
Definition stale (w : World) (key : string) : Prop :=
  match eaCache (svc w) !! key with
  | Some cached => EA_CACHE_TTL ≤ clock (env w) - cached.2
  | None => True
  end.

(** The callback invocations that deliver [signals]. *)
Definition deliveries (cb : option Callback) (signals : list DatabaseSignal.t)
  : list Effect :=
  match cb with
  | Some f => SignalFound f <$> signals
  | None => []
  end.

(** The runtime after a request went out and [d] milliseconds passed. *)
Definition requested (e : Effect) (d : N) (r : Runtime) : Runtime :=
  set_clock (clock r + Z.of_N d) (set_trace (trace r ++ [e]) r).

(** The [since] parameter [getNewSignalsForEA] computes in world [w]. *)
Definition since_param (w : World) : Z :=
  match lastPollTime (svc w) with
  | Some t => t
  | None => clock (env w) - 60 * 60 * 1000
  end.

(** The poller was suspended between [w] and [w']: its timer is gone and one
    restart is pending, due [RESTART_DELAY] after the failure. *)
Definition suspended (w w' : World) : Prop :=
  intervalId (svc w') = None ∧
  intervals (env w') =
    match intervalId (svc w) with
    | Some h => filter (λ iv, iv_handle iv ≠ h) (intervals (env w))
    | None => intervals (env w)
    end ∧
  timeouts (env w') =
    timeouts (env w) ++ [mkPending (nextHandle (env w)) (clock (env w') + RESTART_DELAY)].

(** Nothing was scheduled or cancelled between [w] and [w']. *)
Definition same_timers (w w' : World) : Prop :=
  intervalId (svc w') = intervalId (svc w) ∧
  intervals (env w') = intervals (env w) ∧
  timeouts (env w') = timeouts (env w).

(** The recurring timer the host holds is the one the service remembers. *)
Definition one_timer (w : World) : Prop :=
  iv_handle <$> intervals (env w) =
  match intervalId (svc w) with
  | Some h => [h]
  | None => []
  end.

(** The watermark never lies in the future. *)
Definition watermark_past (w : World) : Prop :=
  ∀ t, lastPollTime (svc w) = Some t → t ≤ clock (env w).

(** How a cycle goes in world [w] when the collaborators answer [net]: the
    resolution throws; it yields no EA ([null] or the empty string); the
    signals fetch yields nothing; or signals come back. *)
Inductive Outcome :=
| ResolutionFailed
| NoEA
| FetchFailed
| Polled (signals : list DatabaseSignal.t).

Definition outcome (key : string) (net : Net) (w : World) : Outcome :=
  match completion (getEAFromLicense key (eaExchange net)) w with
  | Abrupt _ => ResolutionFailed
  | Normal ea =>
      if truthy ea
      then match payload (Some FETCH_DEADLINE) (signalsExchange net) with
           | Some signals => Polled signals
           | None => FetchFailed
           end
      else NoEA
  end.

(** The [onError] invocation of the timer tick for a thrown [error]. *)
Definition reports (cb : option Callback) (error : string) : list Effect :=
  match cb with
  | Some g => [ErrorReported g ("Database error: Error: " +:+ error)]
  | None => []
  end.

(** The world [startPolling] has set up when it hands over to
    [startMockPolling] or [startRealPolling] and the timer is installed. *)
Definition opened (key : string) (f g : option Callback) (w : World) : World :=
  let h := nextHandle (env w) in
  let job := if isEnabled (svc w) then PollJob key else MockJob in
  mkWorld
    (set_intervalId (Some h)
       (set_lastPollTime (Some (clock (env w)))
          (set_currentLicenseKey (Some key)
             (set_onError g (set_onSignalFound f (svc w))))))
    (set_intervals
       (intervals (env w) ++ [mkInterval h POLL_PERIOD (clock (env w) + POLL_PERIOD) job])
       (set_nextHandle (Pos.succ h) (env w))).

(** The world in which the host has re-armed the timer [h] that just fired. *)
Definition rearmed (h : positive) (w : World) : World :=
  mkWorld (svc w)
    (set_intervals
       ((λ i, if bool_decide (iv_handle i = h)
              then mkInterval h (iv_period i) (clock (env w) + iv_period i) (iv_job i)
              else i) <$> intervals (env w))
       (env w)).

(** What holds of every world the event loop can reach. *)
Definition invariant (w : World) : Prop :=
  one_timer w ∧ watermark_past w.

(** The [since] parameters of the signal requests in a trace. *)
Definition sinces (tr : list Effect) : list Z :=
  omap (λ e, match e with HttpGetSignals _ since _ => Some since | _ => None end) tr.

(** An effect that reaches a remote collaborator. *)
Definition remote (e : Effect) : bool :=
  match e with
  | HttpGetEA _ | HttpGetSignals _ _ _ => true
  | _ => false
  end.

(** The events of a run of timer ticks: before each tick of the timer [h],
    some time passes. *)
Definition tick_events (h : positive) (ticks : list (N * Net * MockDraw)) : list Event :=
  flat_map (λ tick, [Elapse tick.1.1; IntervalFires h tick.1.2 tick.2]) ticks.

(** The signals the mock generator fabricates over such a run that starts at
    instant [now]. *)
Fixpoint mock_feed (now : Z) (ticks : list (N * Net * MockDraw)) : list DatabaseSignal.t :=
  match ticks with
  | [] => []
  | tick :: rest =>
      let now' := now + Z.of_N tick.1.1 in
      mockSignal now' tick.2 :: mock_feed now' rest
  end.

(** ** Concrete inputs *)

Module Scenario.

Definition buy : DatabaseSignal.t :=
  DatabaseSignal.mk "101" "MockEA" "XAUUSD" "2026-01-05T10:00:00.000Z" "TRADE" "BUY"
    "2650.10" "2660.00" "2645.00" "2026-01-05T10:00:00.000Z" "PENDING".

Definition sell : DatabaseSignal.t :=
  DatabaseSignal.mk "102" "MockEA" "XAUUSD" "2026-01-05T10:00:20.000Z" "TRADE" "SELL"
    "2651.40" "2640.00" "2656.00" "2026-01-05T10:00:20.000Z" "PENDING".

(** The license resolves to [MockEA]. *)
Definition resolves : Exchange (option string) :=
  mkExchange 120%N (Responded 200 (Some (Some "MockEA"))).

(** Both collaborators answer; two signals come back. *)
Definition healthy : Net :=
  mkNet resolves (mkExchange 80%N (Responded 200 (Some [buy; sell]))).

(** The signals endpoint answers 500. *)
Definition failing : Net :=
  mkNet resolves (mkExchange 80%N (Responded 500 None)).

(** The resolution endpoint is unreachable. *)
Definition unresolved : Net :=
  mkNet (mkExchange 50%N Unreachable) (mkExchange 80%N (Responded 200 (Some [buy; sell]))).

Definition draw : MockDraw :=
  mkMockDraw "2026-01-05T10:00:30.000Z" true "2500.00" "30.00" "10.00".

(** Three consecutive failures of the signals fetch: the initial check and
    two ticks of the timer (handle 1). *)
Definition three_failures : list Event :=
  [CallStart "ABC123" (Some 7%nat) (Some 8%nat) failing;
   Elapse 30000; IntervalFires 1 failing draw;
   Elapse 30000; IntervalFires 1 failing draw].

End Scenario.
Import Scenario.

(** ** Proof steps that recur *)

(** Unfolds the monad and the host primitives, leaving the methods. *)
Ltac mrun :=
  cbv [try_catch mbind M_bind mret M_ret this host assign host_update dateNow
       fetch elapse emit json throw freshHandle setInterval clearInterval
       setTimeout exec completion].

(** The equations of the methods a cycle calls, for rewriting. *)
Create Rewrite HintDb cycle.

(** Splits a goal about [checkForNewSignals key net w] into the paths of the
    cycle: rewrites each call with its equation (the rewrite database
    [cycle]) and takes cases on the cache entry, its age, the two replies and
    the EA that was resolved. *)
Ltac cycle_cases key net w :=
  unfold outcome, exec, completion;
  repeat (autorewrite with cycle; cbv zeta; cbn [fst snd truthy];
          repeat match goal with
                 | H : payload _ _ = _ |- _ => rewrite H
                 end;
          try match goal with
          | |- context [eaCache (svc w) !! key] =>
              destruct (eaCache (svc w) !! key) as [[? ?]|]
          | |- context [if ?a <? EA_CACHE_TTL then _ else _] =>
              destruct (a <? EA_CACHE_TTL)
          | |- context [payload None (eaExchange net)] =>
              let H := fresh "Hea" in
              destruct (payload None (eaExchange net)) as [?|] eqn:H
          | |- context [payload (Some FETCH_DEADLINE) (signalsExchange net)] =>
              let H := fresh "Hp" in
              destruct (payload (Some FETCH_DEADLINE) (signalsExchange net)) eqn:H
          | |- context [match ?ea with Some _ => _ | None => _ end] =>
              is_var ea; destruct ea as [[|? ?]|]
          end).

(** Closes the goals about untouched fields that a case analysis leaves. *)
Ltac frame w :=
  cbn; unfold suspended, same_timers; cbn;
  repeat case_bool_decide; cbn;
  try (destruct (intervalId (svc w)); cbn);
  repeat split; try reflexivity; try lia.

(** Finds the requests a cycle added in front of its deliveries. *)
Ltac remote_prefix :=
  first [ exists []; split; [constructor | cbn; rewrite ?app_nil_r; reflexivity]
        | eexists [_]; split; [| cbn; reflexivity]; repeat constructor
        | eexists [_; _]; split; [| cbn; reflexivity]; repeat constructor ].

#[local] Arguments intervalCallback : simpl never.

(** ** Sessions *)

(** The session the service remembers is the one the host runs: without a
    timer there is no license key and the host holds no recurring timer;
    with a timer there is a license key, and the host holds exactly that
    timer, armed with the polling period, due within one period, whose
    closure is the mock generator or the polling tick for that license key,
    and the mock generator if the service is disabled. *)
Definition session_ok (w : World) : Prop :=
  match intervalId (svc w) with
  | None => intervals (env w) = [] ∧ currentLicenseKey (svc w) = None
  | Some h =>
      ∃ key due job,
        currentLicenseKey (svc w) = Some key ∧
        intervals (env w) = [mkInterval h POLL_PERIOD due job] ∧
        due ≤ clock (env w) + POLL_PERIOD ∧
        (job = MockJob ∨ job = PollJob key) ∧
        (isEnabled (svc w) = false → job = MockJob)
  end.

(** Effects that reach no remote collaborator. *)
Definition silent (new : list Effect) : Prop :=
  Forall (λ e, remote e = false) new.

(** What [n] ticks add to the trace when the resolution fails on each: the
    request, then the report to [onError]. *)
Definition resolution_errors (key : string) (g : option Callback) (n : nat)
  : list Effect :=
  concat (replicate n (HttpGetEA key :: reports g "Failed to fetch EA from license")).

(** ** Failures and restarts *)

(** What the [catch] block of [getNewSignalsForEA] makes of a request for
    [ea] that failed [ms] milliseconds after it went out: the error it
    throws and the world it leaves, with the counter incremented and, at the
    threshold, the poller stopped and a restart scheduled. *)
Definition failed_fetch (ea : string) (ms : N) (w : World)
  : Completion (list DatabaseSignal.t) * World :=
  let n := S (consecutiveErrors (svc w)) in
  let w1 :=
    mkWorld (set_consecutiveErrors n (svc w))
      (requested (HttpGetSignals ea (since_param w) FETCH_DEADLINE) ms (env w)) in
  (Abrupt "Failed to fetch new signals",
   if bool_decide (maxConsecutiveErrors ≤ n)%nat
   then exec (stopPolling;; setTimeout RESTART_DELAY) w1
   else w1).

(** The host holds the one-shot timer [h], and it is due. *)
Definition timeout_due (h : positive) (w : World) : bool :=
  match List.find (λ p, bool_decide (pd_handle p = h)) (timeouts (env w)) with
  | Some p => pd_due p <=? clock (env w)
  | None => false
  end.

(** * The query cache and the connection pool

    A shallow embedding of the shared pool module (app/api/_db.ts): the
    in-memory query cache with its helpers and its periodic cleanup, the
    lazily created connection pool, and [executeQuery].

    - The cache is a JavaScript [Map], which keeps its keys in insertion
      order: an association list, oldest insertion first.
    - The module-level variables are the fields of [DbState]; the MySQL
      driver is not part of the program: whether the driver loads, the pool
      is created, a connection is handed out and the query succeeds are
      arguments, and what the module asks of the driver is logged.
    - [null] is [None]; the data stored in the cache is never [null]
      itself ([executeQuery] stores arrays of rows).
    - In [getPool], [executeQuery] and [closePool] an [async] function runs
      to completion once started, as in the polling service: calls do not
      overlap.  Overlapping calls of [getPool] are modelled apart, at the
      end of the module.  The listeners [getPool] registers on the pool only
      log and set a session variable on new connections; they are not
      modelled. *)

Module Db.

(** ** [Map] *)

Fixpoint map_get {A} (m : list (string * A)) (k : string) : option A :=
  match m with
  | [] => None
  | (k', v) :: rest => if String.eqb k' k then Some v else map_get rest k
  end.

(** [m.set(k, v)]: an existing key keeps its place, a new key goes last. *)
Fixpoint map_set {A} (m : list (string * A)) (k : string) (v : A) : list (string * A) :=
  match m with
  | [] => [(k, v)]
  | (k', v') :: rest =>
      if String.eqb k' k then (k', v) :: rest else (k', v') :: map_set rest k v
  end.

Definition map_delete {A} (m : list (string * A)) (k : string) : list (string * A) :=
  List.filter (λ e, negb (String.eqb e.1 k)) m.

(** ** The cache helpers *)

(** [interface CacheEntry { data; timestamp }] *)
Definition CacheEntry (A : Type) : Type := (A * Z)%type.

Definition CACHE_TTL : Z := 30000.
Definition CACHE_LIMIT : nat := 1000.

(** [getCachedData(key, ttl)], at instant [now]: the data and the cache it
    leaves.  A stale entry is removed. *)
Definition getCachedData {A} (key : string) (ttl : Z) (now : Z)
  (cache : list (string * CacheEntry A)) : option A * list (string * CacheEntry A) :=
  match map_get cache key with
  | Some entry =>
      if now - entry.2 <? ttl then (Some entry.1, cache)
      else (None, map_delete cache key)
  | None => (None, cache)
  end.

(** [setCachedData(key, data)], at instant [now].  Over the limit, the first
    key of the map is deleted, unless it is falsy (the empty string). *)
Definition setCachedData {A} (key : string) (data : A) (now : Z)
  (cache : list (string * CacheEntry A)) : list (string * CacheEntry A) :=
  let cache := map_set cache key (data, now) in
  if (CACHE_LIMIT <? length cache)%nat
  then match cache with
       | (String c rest, _) :: _ => map_delete cache (String c rest)
       | _ => cache
       end
  else cache.

(** The closure of the module's [setInterval]: entries older than twice the
    default TTL are deleted. *)
Definition cleanup {A} (now : Z) (cache : list (string * CacheEntry A))
  : list (string * CacheEntry A) :=
  List.filter (λ e, negb (CACHE_TTL * 2 <? now - e.2.2)) cache.

(** What the program does to the cache, one call at a time. *)
Inductive CacheOp (A : Type) :=
| OpGet (key : string) (ttl : Z) (now : Z)
| OpSet (key : string) (data : A) (now : Z)
| OpCleanup (now : Z).
Arguments OpGet {A} key ttl now.
Arguments OpSet {A} key data now.
Arguments OpCleanup {A} now.

Definition apply_op {A} (cache : list (string * CacheEntry A)) (op : CacheOp A)
  : list (string * CacheEntry A) :=
  match op with
  | OpGet key ttl now => (getCachedData key ttl now cache).2
  | OpSet key data now => setCachedData key data now cache
  | OpCleanup now => cleanup now cache
  end.

(** The cache after a sequence of calls, starting from [new Map()]. *)
Definition cache_after {A} (ops : list (CacheOp A)) : list (string * CacheEntry A) :=
  fold_left apply_op ops [].

(** [op] stores under [key]. *)
Definition sets_key {A} (key : string) (op : CacheOp A) : bool :=
  match op with
  | OpSet k _ _ => String.eqb k key
  | _ => false
  end.

(** ** The pool and [executeQuery] *)

(** What the module asks of the MySQL driver. *)
Inductive DbEffect :=
| DriverImported
| PoolCreated (pool : positive)
| Acquired (pool conn : positive)
| Executed (conn : positive) (query : string) (params : list string)
| Released (conn : positive)
| PoolEnded (pool : positive).

(** The module-level variables, the clock and the log. *)
Record DbState (Row : Type) := mkDbState {
  cache : list (string * CacheEntry (list Row));
  pool : option positive;
  poolInitPromise : option positive;
  db_next : positive;
  db_clock : Z;
  db_log : list DbEffect
}.
Arguments mkDbState {Row} cache pool poolInitPromise db_next db_clock db_log.
Arguments cache {Row} d.
Arguments pool {Row} d.
Arguments poolInitPromise {Row} d.
Arguments db_next {Row} d.
Arguments db_clock {Row} d.
Arguments db_log {Row} d.

(** How the driver answers while a pool is being created. *)
Inductive InitOutcome :=
| DriverMissing (error : string)
| CreateFails (error : string)
| PoolReady.

(** How the driver answers one query: a connection is refused, or handed
    out, and then the query throws or returns its rows; [took] is the time
    the awaits of the call take together. *)
Record QueryOutcome (Row : Type) := mkQueryOutcome {
  init : InitOutcome;
  connection : option string;
  rows : Completion (list Row);
  took : N
}.
Arguments mkQueryOutcome {Row} init connection rows took.
Arguments init {Row} q.
Arguments connection {Row} q.
Arguments rows {Row} q.
Arguments took {Row} q.

Definition log {Row} (e : DbEffect) (s : DbState Row) : DbState Row :=
  mkDbState (cache s) (pool s) (poolInitPromise s) (db_next s) (db_clock s)
    (db_log s ++ [e]).

(** [getPool()].  A pool that exists is returned; so is what a settled
    initialisation promise resolved to; otherwise the pool is created, and a
    failure clears the promise and is thrown. *)
Definition getPool {Row} (i : InitOutcome) (s : DbState Row)
  : Completion positive * DbState Row :=
  match pool s with
  | Some p => (Normal p, s)
  | None =>
      match poolInitPromise s with
      | Some p => (Normal p, s)
      | None =>
          match i with
          | DriverMissing error => (Abrupt error, s)
          | CreateFails error => (Abrupt error, log DriverImported s)
          | PoolReady =>
              let p := db_next s in
              (Normal p,
               mkDbState (cache s) (Some p) (Some p) (Pos.succ p) (db_clock s)
                 (db_log s ++ [DriverImported; PoolCreated p]))
          end
      end
  end.

(** The options of [executeQuery], with their defaults filled in. *)
Record QueryOptions := mkQueryOptions {
  useCache : bool;
  cacheTTL : Z;
  cacheKey : option string
}.

Definition defaultOptions : QueryOptions := mkQueryOptions false CACHE_TTL None.

(** [useCache && cacheKey] *)
Definition caching (o : QueryOptions) : option string :=
  if useCache o
  then match cacheKey o with
       | Some (String c rest) => Some (String c rest)
       | _ => None
       end
  else None.

Definition with_cache {Row} (c : list (string * CacheEntry (list Row))) (s : DbState Row)
  : DbState Row :=
  mkDbState c (pool s) (poolInitPromise s) (db_next s) (db_clock s) (db_log s).

Definition db_elapse {Row} (ms : N) (s : DbState Row) : DbState Row :=
  mkDbState (cache s) (pool s) (poolInitPromise s) (db_next s) (db_clock s + Z.of_N ms)
    (db_log s).

Definition executeQuery {Row} (query : string) (params : list string) (o : QueryOptions)
  (q : QueryOutcome Row) (s : DbState Row) : Completion (list Row) * DbState Row :=
  let miss (s : DbState Row) : Completion (list Row) * DbState Row :=
    match getPool (init q) (db_elapse (took q) s) with
    | (Abrupt error, s) => (Abrupt error, s)
    | (Normal p, s) =>
        match connection q with
        | Some error => (Abrupt error, s)
        | None =>
            let conn := db_next s in
            let s := mkDbState (cache s) (pool s) (poolInitPromise s) (Pos.succ conn)
                       (db_clock s)
                       (db_log s ++ [Acquired p conn; Executed conn query params]) in
            match rows q with
            | Normal result =>
                let s := match caching o with
                         | Some key =>
                             with_cache (setCachedData key result (db_clock s) (cache s)) s
                         | None => s
                         end in
                (Normal result, log (Released conn) s)
            | Abrupt error => (Abrupt error, log (Released conn) s)
            end
        end
    end in
  match caching o with
  | Some key =>
      match getCachedData key (cacheTTL o) (db_clock s) (cache s) with
      | (Some cached, c) => (Normal cached, with_cache c s)
      | (None, c) => miss (with_cache c s)
      end
  | None => miss s
  end.

(** [closePool()]: [ended] tells whether [pool.end()] resolves; a failure is
    logged and swallowed, and leaves the variables as they are. *)
Definition closePool {Row} (ended : bool) (s : DbState Row) : DbState Row :=
  match pool s with
  | Some p =>
      if ended
      then mkDbState (cache s) None None (db_next s) (db_clock s) (db_log s ++ [PoolEnded p])
      else s
  | None => s
  end.

(** The module as the application loaded it. *)
Definition fresh {Row} (t0 : Z) : DbState Row := mkDbState [] None None 1%positive t0 [].

(** What happens to the module: a route runs a query, the process is told
    to terminate, time passes, the cleanup timer fires. *)
Inductive DbEvent (Row : Type) :=
| EvQuery (query : string) (params : list string) (o : QueryOptions) (q : QueryOutcome Row)
| EvClose (ended : bool)
| EvElapse (ms : N)
| EvCleanup.
Arguments EvQuery {Row} query params o q.
Arguments EvClose {Row} ended.
Arguments EvElapse {Row} ms.
Arguments EvCleanup {Row}.

Definition db_step {Row} (s : DbState Row) (e : DbEvent Row) : DbState Row :=
  match e with
  | EvQuery query params o q => (executeQuery query params o q s).2
  | EvClose ended => closePool ended s
  | EvElapse ms => db_elapse ms s
  | EvCleanup => with_cache (cleanup (db_clock s) (cache s)) s
  end.

Definition db_run {Row} (es : list (DbEvent Row)) (s : DbState Row) : DbState Row :=
  fold_left db_step es s.

(** Connections acquired and released, pools created and ended, in a log. *)
Definition acquired (l : list DbEffect) : list positive :=
  omap (λ e, match e with Acquired _ c => Some c | _ => None end) l.
Definition released (l : list DbEffect) : list positive :=
  omap (λ e, match e with Released c => Some c | _ => None end) l.
Definition created (l : list DbEffect) : list positive :=
  omap (λ e, match e with PoolCreated p => Some p | _ => None end) l.
Definition ended (l : list DbEffect) : list positive :=
  omap (λ e, match e with PoolEnded p => Some p | _ => None end) l.

(** ** Overlapping calls of [getPool]

    [getPool] and [closePool] each suspend once: the initialisation at the
    dynamic import of the driver, the shutdown at [pool.end()].  Calls made
    meanwhile see the module variables as they are then.  Here a call is
    split at its await: entering it is one step, the settling of what it
    awaits another, and any steps may come in between.  A promise is the
    number it was created with. *)

(** What a call of [getPool] hands to its caller: the pool, or the promise
    of an initialisation. *)
Inductive Answer :=
| Ready (pool : positive)
| Waits (promise : positive).

Record Pooling := mkPooling {
  the_pool : option positive;
  the_promise : option positive;
  initialising : list positive;
  ending : list positive;
  fulfilled : list (positive * positive);
  answers : list Answer;
  next_id : positive;
  pool_log : list DbEffect
}.

Definition idle : Pooling := mkPooling None None [] [] [] [] 1%positive [].

(** [getPool()] up to its return. *)
Definition getPool_enter (s : Pooling) : Pooling :=
  match the_pool s with
  | Some p =>
      mkPooling (the_pool s) (the_promise s) (initialising s) (ending s) (fulfilled s)
        (answers s ++ [Ready p]) (next_id s) (pool_log s)
  | None =>
      match the_promise s with
      | Some promise =>
          mkPooling (the_pool s) (the_promise s) (initialising s) (ending s) (fulfilled s)
            (answers s ++ [Waits promise]) (next_id s) (pool_log s)
      | None =>
          let promise := next_id s in
          mkPooling None (Some promise) (promise :: initialising s) (ending s)
            (fulfilled s) (answers s ++ [Waits promise]) (Pos.succ promise) (pool_log s)
      end
  end.

Definition remove_id (x : positive) (l : list positive) : list positive :=
  List.filter (λ y, negb (Pos.eqb y x)) l.

Definition is_in (x : positive) (l : list positive) : bool :=
  existsb (Pos.eqb x) l.

(** The import awaited by the initialisation [promise] settles, and the
    initialisation runs to its end. *)
Definition init_settles (promise : positive) (i : InitOutcome) (s : Pooling) : Pooling :=
  if is_in promise (initialising s)
  then
    match i with
    | DriverMissing _ =>
        mkPooling (the_pool s) None (remove_id promise (initialising s)) (ending s)
          (fulfilled s) (answers s) (next_id s) (pool_log s)
    | CreateFails _ =>
        mkPooling (the_pool s) None (remove_id promise (initialising s)) (ending s)
          (fulfilled s) (answers s) (next_id s) (pool_log s ++ [DriverImported])
    | PoolReady =>
        let p := next_id s in
        mkPooling (Some p) (the_promise s) (remove_id promise (initialising s)) (ending s)
          (fulfilled s ++ [(promise, p)]) (answers s) (Pos.succ p)
          (pool_log s ++ [DriverImported; PoolCreated p])
    end
  else s.

(** [closePool()] up to [await pool.end()]. *)
Definition closePool_enter (s : Pooling) : Pooling :=
  match the_pool s with
  | Some p =>
      mkPooling (the_pool s) (the_promise s) (initialising s) (p :: ending s)
        (fulfilled s) (answers s) (next_id s) (pool_log s)
  | None => s
  end.

(** [pool.end()] of pool [p] settles. *)
Definition end_settles (p : positive) (ok : bool) (s : Pooling) : Pooling :=
  if is_in p (ending s)
  then
    if ok
    then mkPooling None None (initialising s) (remove_id p (ending s)) (fulfilled s)
           (answers s) (next_id s) (pool_log s ++ [PoolEnded p])
    else mkPooling (the_pool s) (the_promise s) (initialising s) (remove_id p (ending s))
           (fulfilled s) (answers s) (next_id s) (pool_log s)
  else s.

Inductive PoolEvent :=
| CallGetPool
| InitSettles (promise : positive) (i : InitOutcome)
| CallClosePool
| EndSettles (pool : positive) (ok : bool).

Definition pool_step (s : Pooling) (e : PoolEvent) : Pooling :=
  match e with
  | CallGetPool => getPool_enter s
  | InitSettles promise i => init_settles promise i s
  | CallClosePool => closePool_enter s
  | EndSettles p ok => end_settles p ok s
  end.

Definition pool_run (es : list PoolEvent) (s : Pooling) : Pooling :=
  fold_left pool_step es s.

Definition is_close (e : PoolEvent) : bool :=
  match e with
  | CallClosePool => true
  | _ => false
  end.

End Db.

(** Concrete caches for the examples. *)
Module DbScenario.

(** A different two-letter key for every [n] below 1024. *)
Definition name (n : nat) : string :=
  String (Ascii.ascii_of_nat (48 + n / 32))
    (String (Ascii.ascii_of_nat (48 + n mod 32)) EmptyString).

(** [n] entries stored one after the other, a millisecond apart. *)
Definition fill (n : nat) : list (Db.CacheOp nat) :=
  (λ i, Db.OpSet (name i) i (Z.of_nat i)) <$> seq 0 n.

End DbScenario.

(** Case analysis over the paths of [executeQuery], [getPool] and
    [closePool]. *)
Ltac db_cases :=
  cbv beta zeta delta
    [Db.executeQuery Db.getPool Db.db_elapse Db.with_cache Db.log Db.closePool];
  cbn [Db.cache Db.pool Db.poolInitPromise Db.db_next Db.db_clock Db.db_log fst snd];
  repeat (case_match; simplify_eq;
          cbn [Db.cache Db.pool Db.poolInitPromise Db.db_next Db.db_clock Db.db_log
               fst snd] in * ).

(** The log of a call is the old log, what [getPool] added and what the
    query added. *)
Ltac db_shape :=
  first
  [ exists [], []; rewrite ?app_nil_r; split; [reflexivity|]
  | eexists [_], []; rewrite ?app_nil_r; split; [reflexivity|]
  | eexists [_; _], []; rewrite ?app_nil_r; split; [reflexivity|]
  | eexists [], [_; _; _]; rewrite <- ?app_assoc; split; [reflexivity|]
  | eexists [_; _], [_; _; _]; rewrite <- ?app_assoc; split; [reflexivity|] ].

(** * Properties *)

(** ** What each method does *)

Lemma stopPolling_eq (w : World) :
  stopPolling w =
  (Normal tt,
   mkWorld
     (set_lastPollTime None (set_currentEA None (set_currentLicenseKey None
        (set_intervalId None (svc w)))))
     (match intervalId (svc w) with
      | Some h =>
          set_intervals (filter (λ iv, iv_handle iv ≠ h) (intervals (env w))) (env w)
      | None => env w
      end)).
Proof.
  unfold stopPolling. mrun. destruct w as [[] []]; simpl.
  destruct intervalId0; reflexivity.
Qed.

Lemma getEAFromLicense_hit (w : World) (key : string) (x : Exchange (option string))
  (ea : option string) (ts : Z) :
  eaCache (svc w) !! key = Some (ea, ts) →
  clock (env w) - ts < EA_CACHE_TTL →
  getEAFromLicense key x w = (Normal ea, w).
Proof.
  intros Hc Hage. unfold getEAFromLicense. mrun. rewrite Hc. simpl.
  destruct (Z.ltb_spec (clock (env w) - ts) EA_CACHE_TTL); [reflexivity | lia].
Qed.

Lemma getEAFromLicense_miss (w : World) (key : string) (x : Exchange (option string)) :
  stale w key →
  getEAFromLicense key x w =
  let env' := requested (HttpGetEA key) (latency x) (env w) in
  match payload None x with
  | Some eaId =>
      (Normal eaId,
       mkWorld (set_eaCache (<[key := (eaId, clock env')]> (eaCache (svc w))) (svc w)) env')
  | None => (Abrupt "Failed to fetch EA from license", mkWorld (svc w) env')
  end.
Proof.
  unfold stale, getEAFromLicense, payload, requested. mrun. intros Hs.
  destruct w as [s r]; simpl in *.
  destruct (eaCache s !! key) as [[ea ts]|]; simpl in *.
  - destruct (Z.ltb_spec (clock r - ts) EA_CACHE_TTL); [lia|].
    destruct (reply x) as [|status [eaId|]]; simpl; try reflexivity;
      destruct (response_ok status); reflexivity.
  - destruct (reply x) as [|status [eaId|]]; simpl; try reflexivity;
      destruct (response_ok status); reflexivity.
Qed.

Lemma stale_or_fresh (w : World) (key : string) :
  stale w key ∨
  ∃ ea ts, eaCache (svc w) !! key = Some (ea, ts) ∧ clock (env w) - ts < EA_CACHE_TTL.
Proof.
  unfold stale. destruct (eaCache (svc w) !! key) as [[ea ts]|]; [|by left].
  simpl. destruct (Z.lt_ge_cases (clock (env w) - ts) EA_CACHE_TTL); [right|left]; eauto.
Qed.

Lemma getNewSignalsForEA_ok (w : World) (ea : string)
  (x : Exchange (list DatabaseSignal.t)) (signals : list DatabaseSignal.t) :
  payload (Some FETCH_DEADLINE) x = Some signals →
  getNewSignalsForEA ea x w =
  (Normal signals,
   mkWorld (set_consecutiveErrors 0%nat (svc w))
     (requested (HttpGetSignals ea (since_param w) FETCH_DEADLINE) (latency x) (env w))).
Proof.
  unfold payload, getNewSignalsForEA, requested, since_param. mrun.
  destruct w as [s r]; simpl.
  destruct (FETCH_DEADLINE <=? Z.of_N (latency x)); [discriminate|].
  destruct (reply x) as [|status [a|]]; simpl; try discriminate.
  destruct (response_ok status); simpl; [|discriminate].
  intros [= ->]. reflexivity.
Qed.

Lemma getNewSignalsForEA_fail (w : World) (ea : string)
  (x : Exchange (list DatabaseSignal.t)) :
  payload (Some FETCH_DEADLINE) x = None →
  getNewSignalsForEA ea x w =
  let n := S (consecutiveErrors (svc w)) in
  let w1 :=
    mkWorld (set_consecutiveErrors n (svc w))
      (requested (HttpGetSignals ea (since_param w) FETCH_DEADLINE)
         (waited (Some FETCH_DEADLINE) x) (env w)) in
  (Abrupt "Failed to fetch new signals",
   if bool_decide (maxConsecutiveErrors ≤ n)%nat
   then exec (stopPolling;; setTimeout RESTART_DELAY) w1
   else w1).
Proof.
  unfold payload, waited, getNewSignalsForEA, requested, since_param.
  intros Hp. mrun.
  destruct w as [s r]; simpl.
  destruct (FETCH_DEADLINE <=? Z.of_N (latency x)); simpl.
  - destruct (bool_decide _); simpl; [|reflexivity].
    rewrite !stopPolling_eq. reflexivity.
  - destruct (reply x) as [|status [a|]]; simpl;
      try destruct (response_ok status); simpl; try discriminate;
      destruct (bool_decide _); simpl; try reflexivity;
      rewrite !stopPolling_eq; reflexivity.
Qed.

Lemma suspend_eq (w : World) :
  exec (stopPolling;; setTimeout RESTART_DELAY) w =
  let w1 := exec stopPolling w in
  mkWorld (svc w1)
    (set_timeouts
       (timeouts (env w) ++ [mkPending (nextHandle (env w)) (clock (env w) + RESTART_DELAY)])
       (set_nextHandle (Pos.succ (nextHandle (env w))) (env w1))).
Proof.
  mrun. rewrite stopPolling_eq. simpl.
  destruct w as [s r]; simpl. destruct (intervalId s); reflexivity.
Qed.

Lemma deliver_eq (signal : DatabaseSignal.t) (w : World) :
  deliver signal w =
  (Normal tt,
   mkWorld (svc w)
     (set_trace (trace (env w) ++ deliveries (onSignalFound (svc w)) [signal]) (env w))).
Proof.
  unfold deliver, deliveries. mrun. destruct w as [s r]; simpl.
  destruct (onSignalFound s); simpl; [reflexivity|].
  rewrite app_nil_r. destruct r; reflexivity.
Qed.

(** The delivery loop calls the callback once per signal, in list order. *)
Lemma for_of_deliver (signals : list DatabaseSignal.t) (w : World) :
  for_of signals deliver w =
  (Normal tt,
   mkWorld (svc w)
     (set_trace (trace (env w) ++ deliveries (onSignalFound (svc w)) signals) (env w))).
Proof.
  revert w. induction signals as [|signal rest IH]; intros w.
  - simpl. unfold deliveries. destruct w as [s r]; simpl.
    destruct (onSignalFound s); simpl; rewrite app_nil_r; destruct r; reflexivity.
  - cbn [for_of]. cbv [mbind M_bind]. rewrite deliver_eq, IH. simpl.
    unfold deliveries. destruct (onSignalFound (svc w)); simpl.
    + rewrite <- app_assoc. reflexivity.
    + rewrite !app_nil_r. reflexivity.
Qed.

Lemma checkForNewSignals_eq (key : string) (net : Net) (w : World) :
  checkForNewSignals key net w =
  match getEAFromLicense key (eaExchange net) w with
  | (Abrupt e, w1) => (Abrupt e, w1)
  | (Normal ea, w1) =>
      match ea with
      | Some (String c rest) =>
          match getNewSignalsForEA (String c rest) (signalsExchange net)
                  (mkWorld (set_currentEA ea (svc w1)) (env w1)) with
          | (Abrupt e, w3) => (Abrupt e, w3)
          | (Normal signals, w3) =>
              (Normal tt,
               mkWorld (set_lastPollTime (Some (clock (env w3))) (svc w3))
                 (set_trace (trace (env w3) ++ deliveries (onSignalFound (svc w3)) signals)
                    (env w3)))
          end
      | _ => (Normal tt, w1)
      end
  end.
Proof.
  unfold checkForNewSignals. mrun.
  destruct (getEAFromLicense key (eaExchange net) w) as [[[[|c rest]|]|e] w1];
    try reflexivity.
  destruct (getNewSignalsForEA _ _ _) as [[signals|e] w3]; [|reflexivity].
  rewrite for_of_deliver. reflexivity.
Qed.

(** The same equations without side conditions, for rewriting. *)
Lemma getEAFromLicense_eq (key : string) (x : Exchange (option string)) (w : World) :
  getEAFromLicense key x w =
  let env' := requested (HttpGetEA key) (latency x) (env w) in
  let remote :=
    match payload None x with
    | Some eaId =>
        (Normal eaId,
         mkWorld (set_eaCache (<[key := (eaId, clock env')]> (eaCache (svc w))) (svc w)) env')
    | None => (Abrupt "Failed to fetch EA from license", mkWorld (svc w) env')
    end in
  match eaCache (svc w) !! key with
  | Some cached =>
      if clock (env w) - cached.2 <? EA_CACHE_TTL then (Normal cached.1, w) else remote
  | None => remote
  end.
Proof.
  cbv zeta. destruct (stale_or_fresh w key) as [Hs|(ea & ts & Hc & Hage)].
  - rewrite (getEAFromLicense_miss w key x Hs). unfold stale in Hs.
    destruct (eaCache (svc w) !! key) as [[ea ts]|]; [|reflexivity].
    cbn in *. destruct (Z.ltb_spec (clock (env w) - ts) EA_CACHE_TTL); [lia | reflexivity].
  - rewrite (getEAFromLicense_hit w key x ea ts Hc Hage), Hc. cbn.
    destruct (Z.ltb_spec (clock (env w) - ts) EA_CACHE_TTL); [reflexivity | lia].
Qed.

Lemma getNewSignalsForEA_eq (ea : string) (x : Exchange (list DatabaseSignal.t))
  (w : World) :
  getNewSignalsForEA ea x w =
  match payload (Some FETCH_DEADLINE) x with
  | Some signals =>
      (Normal signals,
       mkWorld (set_consecutiveErrors 0%nat (svc w))
         (requested (HttpGetSignals ea (since_param w) FETCH_DEADLINE) (latency x) (env w)))
  | None =>
      let n := S (consecutiveErrors (svc w)) in
      let w1 :=
        mkWorld (set_consecutiveErrors n (svc w))
          (requested (HttpGetSignals ea (since_param w) FETCH_DEADLINE)
             (waited (Some FETCH_DEADLINE) x) (env w)) in
      (Abrupt "Failed to fetch new signals",
       if bool_decide (maxConsecutiveErrors ≤ n)%nat
       then exec (stopPolling;; setTimeout RESTART_DELAY) w1
       else w1)
  end.
Proof.
  destruct (payload (Some FETCH_DEADLINE) x) as [signals|] eqn:Hp.
  - by apply getNewSignalsForEA_ok.
  - by apply getNewSignalsForEA_fail.
Qed.

Lemma suspend_stop_eq (w : World) :
  exec (stopPolling;; setTimeout RESTART_DELAY) w =
  mkWorld
    (set_lastPollTime None (set_currentEA None (set_currentLicenseKey None
       (set_intervalId None (svc w)))))
    (set_timeouts
       (timeouts (env w) ++ [mkPending (nextHandle (env w)) (clock (env w) + RESTART_DELAY)])
       (set_nextHandle (Pos.succ (nextHandle (env w)))
          (match intervalId (svc w) with
           | Some h =>
               set_intervals (filter (λ iv, iv_handle iv ≠ h) (intervals (env w))) (env w)
           | None => env w
           end))).
Proof. rewrite suspend_eq. unfold exec. rewrite stopPolling_eq. reflexivity. Qed.

#[local] Hint Rewrite checkForNewSignals_eq getEAFromLicense_eq getNewSignalsForEA_eq
  suspend_stop_eq : cycle.

(** ** One cycle, case by case *)

Section Cycle.

Variables (key : string) (net : Net) (w : World).

Lemma checkForNewSignals_completion :
  completion (checkForNewSignals key net) w =
  match outcome key net w with
  | ResolutionFailed => Abrupt "Failed to fetch EA from license"
  | FetchFailed => Abrupt "Failed to fetch new signals"
  | NoEA | Polled _ => Normal tt
  end.
Proof. cycle_cases key net w; reflexivity. Qed.

Lemma cycle_counter :
  let w' := exec (checkForNewSignals key net) w in
  let n := consecutiveErrors (svc w) in
  match outcome key net w with
  | ResolutionFailed | NoEA => consecutiveErrors (svc w') = n ∧ same_timers w w'
  | FetchFailed =>
      consecutiveErrors (svc w') = S n ∧
      if bool_decide (maxConsecutiveErrors ≤ S n)%nat
      then suspended w w'
      else same_timers w w'
  | Polled _ => consecutiveErrors (svc w') = 0%nat ∧ same_timers w w'
  end.
Proof. cbv zeta. cycle_cases key net w; frame w. Qed.

Lemma cycle_clock :
  clock (env w) ≤ clock (env (exec (checkForNewSignals key net) w)).
Proof. cycle_cases key net w; frame w. Qed.

Lemma cycle_watermark :
  let w' := exec (checkForNewSignals key net) w in
  match outcome key net w with
  | ResolutionFailed | NoEA => lastPollTime (svc w') = lastPollTime (svc w)
  | FetchFailed =>
      if bool_decide (maxConsecutiveErrors ≤ S (consecutiveErrors (svc w)))%nat
      then lastPollTime (svc w') = None
      else lastPollTime (svc w') = lastPollTime (svc w)
  | Polled _ => lastPollTime (svc w') = Some (clock (env w'))
  end.
Proof. cbv zeta. cycle_cases key net w; frame w. Qed.

Lemma cycle_callbacks :
  let w' := exec (checkForNewSignals key net) w in
  isEnabled (svc w') = isEnabled (svc w) ∧
  onSignalFound (svc w') = onSignalFound (svc w) ∧
  onError (svc w') = onError (svc w).
Proof. cbv zeta. cycle_cases key net w; frame w. Qed.

Lemma cycle_trace :
  let w' := exec (checkForNewSignals key net) w in
  ∃ requests,
    Forall (λ e, remote e = true) requests ∧
    trace (env w') =
      trace (env w) ++ requests ++
      match outcome key net w with
      | Polled signals => deliveries (onSignalFound (svc w)) signals
      | _ => []
      end.
Proof.
  cbv zeta. cycle_cases key net w; cbn;
    repeat case_bool_decide; try (destruct (intervalId (svc w)); cbn);
    rewrite <- ?app_assoc; cbn; remote_prefix.
Qed.

End Cycle.

(** ** Starting and ticking *)

Lemma startPolling_running (w : World) (key : string) (f g : option Callback)
  (net : Net) :
  isRunning (svc w) = true →
  startPolling key f g net w = (Normal tt, w).
Proof.
  unfold isRunning, startPolling. mrun.
  destruct (intervalId (svc w)); [reflexivity | discriminate].
Qed.

Lemma startPolling_idle (w : World) (key : string) (f g : option Callback)
  (net : Net) :
  isRunning (svc w) = false →
  startPolling key f g net w =
  (Normal tt,
   if isEnabled (svc w)
   then exec (checkForNewSignals key net) (opened key f g w)
   else opened key f g w).
Proof.
  unfold isRunning, startPolling, startMockPolling, startRealPolling, opened. mrun.
  destruct w as [[enabled id ? ? ? ? ? ? ?] r]; cbn.
  destruct id; [discriminate|]. intros _.
  destruct enabled; cbn; [|reflexivity].
  destruct (checkForNewSignals _ _ _) as [[[]|e] w']; reflexivity.
Qed.

Lemma intervalCallback_poll (key : string) (net : Net) (d : MockDraw) (w : World) :
  intervalCallback (PollJob key) net d w =
  let w' := exec (checkForNewSignals key net) w in
  (Normal tt,
   match completion (checkForNewSignals key net) w with
   | Normal _ => w'
   | Abrupt e =>
       mkWorld (svc w') (set_trace (trace (env w') ++ reports (onError (svc w')) e) (env w'))
   end).
Proof.
  unfold intervalCallback, reports. mrun.
  destruct (checkForNewSignals key net w) as [[[]|e] [s r]]; cbn; [reflexivity|].
  destruct (onError s); cbn; [reflexivity|].
  rewrite app_nil_r. destruct r; reflexivity.
Qed.

Lemma intervalCallback_mock (net : Net) (d : MockDraw) (w : World) :
  intervalCallback MockJob net d w =
  (Normal tt,
   mkWorld (svc w)
     (set_trace
        (trace (env w) ++ deliveries (onSignalFound (svc w)) [mockSignal (clock (env w)) d])
        (env w))).
Proof.
  unfold intervalCallback, deliveries. mrun. destruct w as [s r]; cbn.
  destruct (onSignalFound s); cbn; [reflexivity|].
  rewrite app_nil_r. destruct r; reflexivity.
Qed.

Lemma restartAfterCooldown_no_key (net : Net) (w : World) :
  truthy (currentLicenseKey (svc w)) = false →
  restartAfterCooldown net w = (Normal tt, w).
Proof.
  unfold restartAfterCooldown. mrun.
  destruct (currentLicenseKey (svc w)) as [[|c rest]|]; cbn; intros; done.
Qed.

Lemma fireInterval_eq (h : positive) (net : Net) (d : MockDraw) (w : World) :
  fireInterval h net d w =
  match List.find (λ iv, bool_decide (iv_handle iv = h)) (intervals (env w)) with
  | Some iv =>
      if iv_due iv <=? clock (env w)
      then intervalCallback (iv_job iv) net d (rearmed h w)
      else (Normal tt, w)
  | None => (Normal tt, w)
  end.
Proof.
  unfold fireInterval, rearmed. mrun.
  destruct (List.find _ _) as [iv|]; [|reflexivity].
  destruct (iv_due iv <=? clock (env w)); reflexivity.
Qed.

Lemma fireTimeout_eq (h : positive) (net : Net) (w : World) :
  fireTimeout h net w =
  match List.find (λ p, bool_decide (pd_handle p = h)) (timeouts (env w)) with
  | Some p =>
      if pd_due p <=? clock (env w)
      then restartAfterCooldown net
             (mkWorld (svc w)
                (set_timeouts (filter (λ p, pd_handle p ≠ h) (timeouts (env w))) (env w)))
      else (Normal tt, w)
  | None => (Normal tt, w)
  end.
Proof.
  unfold fireTimeout. mrun.
  destruct (List.find _ _) as [p|]; [|reflexivity].
  destruct (pd_due p <=? clock (env w)); reflexivity.
Qed.

Lemma restartAfterCooldown_eq (net : Net) (w : World) :
  restartAfterCooldown net w =
  match currentLicenseKey (svc w) with
  | Some (String c rest) =>
      startPolling (String c rest) (onSignalFound (svc w)) (onError (svc w)) net
        (mkWorld (set_consecutiveErrors 0%nat (svc w)) (env w))
  | _ => (Normal tt, w)
  end.
Proof.
  unfold restartAfterCooldown. mrun.
  destruct (currentLicenseKey (svc w)) as [[|c rest]|]; reflexivity.
Qed.

(** ** What every reachable world satisfies *)

Lemma filter_own_handle (l : list Interval) (h : positive) :
  iv_handle <$> l = [h] → filter (λ iv, iv_handle iv ≠ h) l = [].
Proof.
  destruct l as [|iv [|iv' l]]; try discriminate.
  intros [= <-]. rewrite filter_cons. case_decide; [congruence | reflexivity].
Qed.

Lemma cycle_timers (key : string) (net : Net) (w : World) :
  let w' := exec (checkForNewSignals key net) w in
  same_timers w w' ∨ suspended w w'.
Proof.
  cbv zeta. pose proof (cycle_counter key net w) as H. cbv zeta in H.
  destruct (outcome key net w); try (left; apply H).
  destruct H as [_ H]. case_bool_decide; [right | left]; exact H.
Qed.

Lemma one_timer_cycle (key : string) (net : Net) (w : World) :
  one_timer w → one_timer (exec (checkForNewSignals key net) w).
Proof.
  unfold one_timer. intros H.
  destruct (cycle_timers key net w) as [(Hid & Hiv & _)|(Hid & Hiv & _)];
    rewrite Hid, Hiv; [exact H|].
  destruct (intervalId (svc w)) as [h|]; [|exact H].
  rewrite (filter_own_handle _ _ H). reflexivity.
Qed.

Lemma watermark_past_cycle (key : string) (net : Net) (w : World) :
  watermark_past w → watermark_past (exec (checkForNewSignals key net) w).
Proof.
  unfold watermark_past. intros H t.
  pose proof (cycle_clock key net w) as Hclock.
  pose proof (cycle_watermark key net w) as Hw. cbv zeta in Hw.
  destruct (outcome key net w); try case_bool_decide; rewrite Hw;
    try discriminate; try (intros [= <-]; lia);
    intros Ht; specialize (H t Ht); lia.
Qed.

Lemma invariant_cycle (key : string) (net : Net) (w : World) :
  invariant w → invariant (exec (checkForNewSignals key net) w).
Proof.
  intros [H1 H2]. split; [by apply one_timer_cycle | by apply watermark_past_cycle].
Qed.

Lemma invariant_stop (w : World) : invariant w → invariant (exec stopPolling w).
Proof.
  unfold invariant, one_timer, watermark_past, exec. rewrite stopPolling_eq. cbn.
  intros [H1 H2]. split; [|discriminate].
  destruct (intervalId (svc w)); cbn; [|exact H1].
  rewrite (filter_own_handle _ _ H1). reflexivity.
Qed.

Lemma invariant_opened (key : string) (f g : option Callback) (w : World) :
  isRunning (svc w) = false → invariant w → invariant (opened key f g w).
Proof.
  unfold invariant, one_timer, watermark_past, isRunning, opened. cbn.
  destruct (intervalId (svc w)); [discriminate|]. intros _ [H1 H2]. split.
  - rewrite fmap_app, H1. reflexivity.
  - intros t [= <-]. lia.
Qed.

Lemma invariant_start (key : string) (f g : option Callback) (net : Net) (w : World) :
  invariant w → invariant (exec (startPolling key f g net) w).
Proof.
  intros H. unfold exec. destruct (isRunning (svc w)) eqn:Hr.
  - by rewrite startPolling_running.
  - rewrite startPolling_idle by done. cbn.
    pose proof (invariant_opened key f g w Hr H).
    destruct (isEnabled (svc w)); [by apply invariant_cycle | done].
Qed.

Lemma invariant_rearmed (h : positive) (w : World) :
  invariant w → invariant (rearmed h w).
Proof.
  unfold invariant, one_timer, watermark_past, rearmed. cbn. intros [H1 H2].
  split; [|exact H2]. rewrite <- H1, <- list_fmap_compose.
  apply list_fmap_ext. intros i iv _. cbn. case_bool_decide; cbn; congruence.
Qed.

Lemma invariant_step (w : World) (e : Event) : invariant w → invariant (step w e).
Proof.
  intros H. destruct e as [d| | |key f g net| |h net d|h net]; unfold step; cbn [dispatch].
  - destruct H as [H1 H2]. split; [exact H1|].
    intros t Ht. specialize (H2 t Ht). cbn. lia.
  - exact H.
  - apply (invariant_stop (mkWorld (set_isEnabled false (svc w)) (env w))). exact H.
  - by apply invariant_start.
  - by apply invariant_stop.
  - unfold exec. rewrite fireInterval_eq.
    destruct (List.find _ _) as [iv|]; [|exact H].
    destruct (iv_due iv <=? clock (env w)); [|exact H].
    pose proof (invariant_rearmed h w H) as Hr.
    destruct (iv_job iv) as [|key].
    + rewrite intervalCallback_mock. exact Hr.
    + rewrite intervalCallback_poll. cbv zeta. cbn [snd].
      pose proof (invariant_cycle key net _ Hr).
      destruct (completion _ _); done.
  - unfold exec. rewrite fireTimeout_eq.
    destruct (List.find _ _) as [p|]; [|exact H].
    destruct (pd_due p <=? clock (env w)); [|exact H].
    rewrite restartAfterCooldown_eq. cbn [svc env].
    destruct (currentLicenseKey (svc w)) as [[|c rest]|]; cbn; try exact H.
    apply (invariant_start (String c rest) _ _ net
             (mkWorld (set_consecutiveErrors 0%nat (svc w))
                (set_timeouts (filter (λ p, pd_handle p ≠ h) (timeouts (env w))) (env w)))).
    exact H.
Qed.

Lemma run_cons (e : Event) (es : list Event) (w : World) :
  run (e :: es) w = run es (step w e).
Proof. reflexivity. Qed.

Lemma invariant_run (es : list Event) (w : World) : invariant w → invariant (run es w).
Proof.
  revert w. induction es as [|e es IH]; intros w H; [exact H|].
  cbn. apply IH, invariant_step, H.
Qed.

Lemma invariant_boot (t0 : Z) : invariant (boot t0).
Proof. split; [reflexivity | intros t; discriminate]. Qed.

(** * The claims *)

(** C4: calling [startPolling] while a session is running (the timer is
    installed) is a no-op: the whole world, and so the callbacks, the license
    key, the watermark and the timers, stays as it is; and in every world the
    event loop can reach the host holds at most one recurring timer, the one
    [intervalId] names. *)
Theorem startPolling_while_running_is_noop :
  (∀ (w : World) (key : string) (f g : option Callback) (net : Net),
     isRunning (svc w) = true →
     startPolling key f g net w = (Normal tt, w)) ∧
  (∀ (es : list Event) (t0 : Z),
     let w := run es (boot t0) in
     one_timer w ∧ (length (intervals (env w)) ≤ 1)%nat).
Proof.
  split.
  - intros w key f g net Hr. by apply startPolling_running.
  - intros es t0 w.
    destruct (invariant_run es (boot t0) (invariant_boot t0)) as [H _].
    fold w in H. split; [exact H|].
    unfold one_timer in H.
    rewrite <- (length_fmap iv_handle), H.
    destruct (intervalId (svc w)); cbn; lia.
Qed.

Lemma startPolling_while_running_is_noop_witness :
  let w := run [CallStart "ABC123" (Some 7%nat) (Some 8%nat) healthy] (boot 1000000) in
  isRunning (svc w) = true ∧
  startPolling "ABC123" (Some 9%nat) None failing w = (Normal tt, w).
Proof.
  cbv zeta. split; [vm_compute; reflexivity|].
  apply (proj1 startPolling_while_running_is_noop). vm_compute; reflexivity.
Defined.

(** C5: on a cycle whose fetch succeeds and returns a list of signals,
    [onSignalFound] is called exactly once per returned signal, in the order
    the collaborator returned them, each signal passed unchanged: what the
    cycle adds to the trace is its requests followed by one [SignalFound] per
    signal, in list order. *)
Theorem onSignalFound_once_per_signal_in_order (key : string) (net : Net) (w : World)
  (signals : list DatabaseSignal.t) (f : Callback) :
  outcome key net w = Polled signals →
  onSignalFound (svc w) = Some f →
  ∃ requests,
    Forall (λ e, remote e = true) requests ∧
    trace (env (exec (checkForNewSignals key net) w)) =
    trace (env w) ++ requests ++ (SignalFound f <$> signals).
Proof.
  intros Ho Hf. destruct (cycle_trace key net w) as (requests & Hr & Ht).
  exists requests. split; [exact Hr|].
  rewrite Ht, Ho, Hf. reflexivity.
Qed.

Lemma onSignalFound_once_per_signal_in_order_witness :
  let w := opened "ABC123" (Some 7%nat) (Some 8%nat) (boot 1000000) in
  outcome "ABC123" healthy w = Polled [buy; sell] ∧
  onSignalFound (svc w) = Some 7%nat ∧
  ∃ requests,
    Forall (λ e, remote e = true) requests ∧
    trace (env (exec (checkForNewSignals "ABC123" healthy) w)) =
    trace (env w) ++ requests ++ [SignalFound 7%nat buy; SignalFound 7%nat sell].
Proof.
  cbv zeta. split; [vm_compute; reflexivity|]. split; [vm_compute; reflexivity|].
  apply (onSignalFound_once_per_signal_in_order "ABC123" healthy
           (opened "ABC123" (Some 7%nat) (Some 8%nat) (boot 1000000)) [buy; sell] 7%nat);
    vm_compute; reflexivity.
Defined.

(** C6: EA resolution is cached per license key for 5 minutes.  An entry
    younger than the TTL is returned as it is, a cached "no EA" included,
    and nothing is sent or changed; otherwise the resolution request goes out
    and, if it succeeds, its result is stored under the license key with the
    time of arrival, while a failed call stores nothing. *)
Theorem getEAFromLicense_cached_for_ttl (w : World) (key : string)
  (x : Exchange (option string)) :
  EA_CACHE_TTL = 5 * 60 * 1000 ∧
  (∀ ea ts,
     eaCache (svc w) !! key = Some (ea, ts) →
     clock (env w) - ts < EA_CACHE_TTL →
     getEAFromLicense key x w = (Normal ea, w)) ∧
  (stale w key →
   let w' := exec (getEAFromLicense key x) w in
   trace (env w') = trace (env w) ++ [HttpGetEA key] ∧
   clock (env w') = clock (env w) + Z.of_N (latency x) ∧
   match payload None x with
   | Some eaId =>
       completion (getEAFromLicense key x) w = Normal eaId ∧
       eaCache (svc w') = <[key := (eaId, clock (env w'))]> (eaCache (svc w))
   | None =>
       completion (getEAFromLicense key x) w = Abrupt "Failed to fetch EA from license" ∧
       eaCache (svc w') = eaCache (svc w)
   end).
Proof.
  split; [reflexivity|]. split.
  - intros ea ts. apply getEAFromLicense_hit.
  - intros Hs. unfold exec, completion.
    rewrite (getEAFromLicense_miss w key x Hs). cbv zeta.
    destruct (payload None x); cbn; repeat split; reflexivity.
Qed.

Lemma getEAFromLicense_cached_for_ttl_witness :
  let w := run [CallStart "ABC123" (Some 7%nat) (Some 8%nat) healthy; Elapse 299000]
             (boot 1000000) in
  eaCache (svc w) !! "ABC123" = Some (Some "MockEA", 1000120) ∧
  clock (env w) - 1000120 < EA_CACHE_TTL ∧
  getEAFromLicense "ABC123" (mkExchange 50%N Unreachable) w = (Normal (Some "MockEA"), w).
Proof.
  cbv zeta. split; [vm_compute; reflexivity|]. split; [vm_compute; reflexivity|].
  apply (proj1 (proj2 (getEAFromLicense_cached_for_ttl
           (run [CallStart "ABC123" (Some 7%nat) (Some 8%nat) healthy; Elapse 299000]
              (boot 1000000))
           "ABC123" (mkExchange 50%N Unreachable))) (Some "MockEA") 1000120);
    vm_compute; reflexivity.
Defined.

(** ** The [since] parameter and the deadline *)

Lemma sinces_app (t1 t2 : list Effect) : sinces (t1 ++ t2) = sinces t1 ++ sinces t2.
Proof. apply omap_app. Qed.

Lemma sinces_deliveries (cb : option Callback) (signals : list DatabaseSignal.t) :
  sinces (deliveries cb signals) = [].
Proof.
  destruct cb as [f|]; [|reflexivity]. cbn.
  induction signals as [|signal rest IH]; [reflexivity | exact IH].
Qed.

Lemma getNewSignalsForEA_trace (w : World) (ea : string)
  (x : Exchange (list DatabaseSignal.t)) :
  trace (env (exec (getNewSignalsForEA ea x) w)) =
  trace (env w) ++ [HttpGetSignals ea (since_param w) FETCH_DEADLINE].
Proof.
  unfold exec. destruct (payload (Some FETCH_DEADLINE) x) as [signals|] eqn:Hp.
  - by rewrite (getNewSignalsForEA_ok w ea x signals Hp).
  - rewrite (getNewSignalsForEA_fail w ea x Hp). cbv zeta.
    case_bool_decide; [|reflexivity].
    rewrite suspend_eq. unfold exec. rewrite stopPolling_eq. cbn.
    destruct (intervalId (svc w)); reflexivity.
Qed.

Lemma cycle_sinces (key : string) (net : Net) (w : World) (t : Z) :
  lastPollTime (svc w) = Some t →
  sinces (trace (env (exec (checkForNewSignals key net) w))) =
  sinces (trace (env w)) ++
  match outcome key net w with
  | Polled _ | FetchFailed => [t]
  | _ => []
  end.
Proof.
  cycle_cases key net w; intros Ht; cbn;
    repeat case_bool_decide; try (destruct (intervalId (svc w)); cbn);
    unfold since_param; cbn; rewrite ?Ht;
    rewrite ?sinces_app, ?sinces_deliveries; cbn;
    rewrite <- ?app_assoc, ?app_nil_r; reflexivity.
Qed.

Lemma deadline_expiry_payload {A} (x : Exchange A) :
  FETCH_DEADLINE ≤ Z.of_N (latency x) →
  payload (Some FETCH_DEADLINE) x = None ∧
  waited (Some FETCH_DEADLINE) x = Z.to_N FETCH_DEADLINE.
Proof.
  unfold payload, waited. intros H.
  destruct (Z.leb_spec FETCH_DEADLINE (Z.of_N (latency x))); [done | lia].
Qed.




(** ** The watermark *)

(** C2 (as amended): in every reachable world, a cycle that fails EA
    resolution or finds no EA leaves [lastPollTime] unchanged, and so does a
    cycle that fails the signals fetch while the consecutive-error counter
    stays below the threshold; a successful cycle sets it to the current
    time, which is not before its previous value. *)
Theorem watermark_moves_only_on_success (es : list Event) (t0 : Z) (key : string)
  (net : Net) :
  let w := run es (boot t0) in
  let w' := exec (checkForNewSignals key net) w in
  match outcome key net w with
  | ResolutionFailed | NoEA => lastPollTime (svc w') = lastPollTime (svc w)
  | FetchFailed =>
      (S (consecutiveErrors (svc w)) < maxConsecutiveErrors)%nat →
      lastPollTime (svc w') = lastPollTime (svc w)
  | Polled _ =>
      lastPollTime (svc w') = Some (clock (env w')) ∧
      ∀ t, lastPollTime (svc w) = Some t → t ≤ clock (env w')
  end.
Proof.
  cbv zeta. generalize (invariant_run es (boot t0) (invariant_boot t0)).
  generalize (run es (boot t0)). intros w [_ Hp].
  pose proof (cycle_watermark key net w) as Hw. cbv zeta in Hw.
  destruct (outcome key net w); try exact Hw.
  - intros Hn. case_bool_decide; [lia | exact Hw].
  - split; [exact Hw|]. intros t Ht.
    specialize (Hp t Ht). pose proof (cycle_clock key net w) as Hc. lia.
Qed.

Lemma watermark_moves_only_on_success_witness :
  let w := run [CallStart "ABC123" (Some 7%nat) (Some 8%nat) failing; Elapse 30000]
             (boot 1000000) in
  outcome "ABC123" failing w = FetchFailed ∧
  (S (consecutiveErrors (svc w)) < maxConsecutiveErrors)%nat ∧
  lastPollTime (svc (exec (checkForNewSignals "ABC123" failing) w)) = lastPollTime (svc w).
Proof.
  cbv zeta.
  assert (outcome "ABC123" failing
            (run [CallStart "ABC123" (Some 7%nat) (Some 8%nat) failing; Elapse 30000]
               (boot 1000000)) = FetchFailed) as Ho by (vm_compute; reflexivity).
  split; [exact Ho|]. split; [vm_compute; lia|].
  pose proof (watermark_moves_only_on_success
                [CallStart "ABC123" (Some 7%nat) (Some 8%nat) failing; Elapse 30000]
                1000000 "ABC123" failing) as H.
  cbv zeta in H. rewrite Ho in H. apply H. vm_compute; lia.
Defined.

(** C2, as the claim states it, fails: the cycle that fails the signals fetch
    for the third time in a row does not leave the watermark unchanged, it
    clears it. *)
Lemma third_failure_clears_watermark :
  let w := run [CallStart "ABC123" (Some 7%nat) (Some 8%nat) failing;
                Elapse 30000; IntervalFires 1 failing draw; Elapse 30000]
             (boot 1000000) in
  outcome "ABC123" failing w = FetchFailed ∧
  lastPollTime (svc w) = Some 1000000 ∧
  lastPollTime (svc (exec (checkForNewSignals "ABC123" failing) w)) = None.
Proof. vm_compute. repeat split; reflexivity. Qed.

(** ** The error counter *)

Lemma start_timeouts (key : string) (f g : option Callback) (net : Net) (w : World) :
  let w' := exec (startPolling key f g net) w in
  timeouts (env w') = timeouts (env w) ∨
  (timeouts (env w') = timeouts (env w) ++
     [mkPending (Pos.succ (nextHandle (env w))) (clock (env w') + RESTART_DELAY)] ∧
   (maxConsecutiveErrors ≤ S (consecutiveErrors (svc w)))%nat ∧
   consecutiveErrors (svc w') = S (consecutiveErrors (svc w))).
Proof.
  cbv zeta. unfold exec. destruct (isRunning (svc w)) eqn:Hr.
  - left. by rewrite startPolling_running.
  - rewrite startPolling_idle by done. cbn [snd].
    destruct (isEnabled (svc w)); [|by left].
    pose proof (cycle_counter key net (opened key f g w)) as H. cbv zeta in H.
    destruct (outcome key net (opened key f g w)); try (left; apply H).
    destruct H as [Hn H]. cbn in Hn, H. case_bool_decide.
    + right. destruct H as (_ & _ & H). rewrite H, Hn. cbn. done.
    + left. apply H.
Qed.

(** C3: the consecutive-error counter is incremented only by a failure of the
    signals fetch, not by a failure of the license resolution; every
    successful signals fetch resets it to zero; and the poller is suspended
    exactly when a failed fetch brings the counter to the threshold of 3.
    No event schedules a restart otherwise: whenever an event leaves more
    restarts pending than it found, the counter is at or above the
    threshold. *)
Theorem counter_counts_fetch_failures_only :
  maxConsecutiveErrors = 3%nat ∧
  (∀ (key : string) (net : Net) (w : World),
     let w' := exec (checkForNewSignals key net) w in
     let n := consecutiveErrors (svc w) in
     match outcome key net w with
     | ResolutionFailed | NoEA => consecutiveErrors (svc w') = n ∧ same_timers w w'
     | FetchFailed =>
         consecutiveErrors (svc w') = S n ∧
         if bool_decide (maxConsecutiveErrors ≤ S n)%nat
         then suspended w w'
         else same_timers w w'
     | Polled _ => consecutiveErrors (svc w') = 0%nat ∧ same_timers w w'
     end) ∧
  (∀ (w : World) (e : Event),
     (length (timeouts (env w)) < length (timeouts (env (step w e))))%nat →
     (maxConsecutiveErrors ≤ consecutiveErrors (svc (step w e)))%nat).
Proof.
  split; [reflexivity|]. split; [exact cycle_counter|].
  intros w e. destruct e as [d| | |key f g net| |h net d|h net]; unfold step; cbn [dispatch].
  - cbn. lia.
  - cbn. lia.
  - unfold disableDatabaseConnections, exec. cbv [mbind M_bind assign].
    rewrite stopPolling_eq. cbn. destruct (intervalId (svc w)); cbn; lia.
  - destruct (start_timeouts key f g net w) as [H|(H & Hn & Hc)]; cbv zeta in *.
    + rewrite H. lia.
    + rewrite Hc. intros _. exact Hn.
  - unfold exec. rewrite stopPolling_eq. cbn. destruct (intervalId (svc w)); cbn; lia.
  - unfold exec. rewrite fireInterval_eq.
    destruct (List.find _ _) as [iv|]; [|cbn; lia].
    destruct (iv_due iv <=? clock (env w)); [|cbn; lia].
    destruct (iv_job iv) as [|key].
    + rewrite intervalCallback_mock. cbn. lia.
    + rewrite intervalCallback_poll. cbv zeta. cbn [snd].
      pose proof (cycle_counter key net (rearmed h w)) as H. cbv zeta in H.
      assert (timeouts (env (rearmed h w)) = timeouts (env w)) as Ht by reflexivity.
      assert (consecutiveErrors (svc (rearmed h w)) = consecutiveErrors (svc w)) as Hn
        by reflexivity.
      rewrite Hn in H.
      destruct (completion _ _); cbn [svc env set_trace timeouts];
        destruct (outcome key net (rearmed h w));
        try (destruct H as [_ (_ & _ & H)]; rewrite H, Ht; lia);
        destruct H as [Hc H]; (case_bool_decide;
          [ rewrite Hc; intros _; done
          | destruct H as (_ & _ & H); rewrite H, Ht; lia ]).
  - unfold exec. rewrite fireTimeout_eq.
    destruct (List.find _ _) as [p|]; [|cbn; lia].
    destruct (pd_due p <=? clock (env w)); [|cbn; lia].
    rewrite restartAfterCooldown_eq. cbn [svc env].
    pose proof (length_filter (λ p, pd_handle p ≠ h) (timeouts (env w))) as Hf.
    destruct (currentLicenseKey (svc w)) as [[|c rest]|]; cbn [snd env timeouts set_timeouts];
      try lia.
    destruct (start_timeouts (String c rest) (onSignalFound (svc w)) (onError (svc w)) net
                (mkWorld (set_consecutiveErrors 0%nat (svc w))
                   (set_timeouts (filter (λ p, pd_handle p ≠ h) (timeouts (env w))) (env w))))
      as [H|(_ & Hn & _)]; cbv zeta in *.
    + unfold exec in H. rewrite H. cbn. lia.
    + cbn in Hn. unfold maxConsecutiveErrors in Hn. lia.
Qed.

Lemma counter_counts_fetch_failures_only_witness :
  let w := run [CallStart "ABC123" (Some 7%nat) (Some 8%nat) failing;
                Elapse 30000; IntervalFires 1 failing draw; Elapse 30000]
             (boot 1000000) in
  let e := IntervalFires 1 failing draw in
  (length (timeouts (env w)) < length (timeouts (env (step w e))))%nat ∧
  (maxConsecutiveErrors ≤ consecutiveErrors (svc (step w e)))%nat.
Proof.
  cbv zeta. split; [vm_compute; lia|].
  apply (proj2 (proj2 counter_counts_fetch_failures_only)). vm_compute; lia.
Defined.

(** ** The resolution cache across sessions *)

Lemma cached_cycle_trace (key : string) (net : Net) (w : World) (ea : option string)
  (ts : Z) :
  eaCache (svc w) !! key = Some (ea, ts) →
  clock (env w) - ts < EA_CACHE_TTL →
  ∃ new,
    trace (env (exec (checkForNewSignals key net) w)) = trace (env w) ++ new ∧
    (HttpGetEA key ∉ new) ∧
    if truthy ea
    then ∃ tail, new = HttpGetSignals (default "" ea) (since_param w) FETCH_DEADLINE :: tail
    else new = [].
Proof.
  intros Hc Hage. unfold exec.
  rewrite checkForNewSignals_eq, (getEAFromLicense_hit w key _ ea ts Hc Hage).
  destruct ea as [[|c rest]|]; cbn [truthy default];
    try (exists []; rewrite app_nil_r; repeat split; [apply not_elem_of_nil]).
  destruct (payload (Some FETCH_DEADLINE) (signalsExchange net)) as [signals|] eqn:Hp.
  - rewrite (getNewSignalsForEA_ok _ _ _ signals Hp). cbn.
    rewrite <- app_assoc. eexists. split; [reflexivity|]. split; [|by eexists].
    cbn. rewrite not_elem_of_cons. split; [discriminate|].
    unfold deliveries. destruct (onSignalFound (svc w)); [|apply not_elem_of_nil].
    intros (signal & H & _)%list_elem_of_fmap. discriminate.
  - rewrite (getNewSignalsForEA_fail _ _ _ Hp). cbv zeta.
    case_bool_decide.
    + rewrite suspend_eq. unfold exec. rewrite stopPolling_eq. cbn.
      eexists [_]. split; [by destruct (intervalId (svc w))|]. split; [|by eexists].
      rewrite not_elem_of_cons. split; [discriminate | apply not_elem_of_nil].
    + cbn. eexists [_]. split; [reflexivity|]. split; [|by eexists].
      rewrite not_elem_of_cons. split; [discriminate | apply not_elem_of_nil].
Qed.

(** C9: neither [stopPolling] nor disabling the service clears the EA
    resolution cache.  An entry written during one session survives the
    teardown, and a later [startPolling] with the same license key, while
    the entry is younger than the TTL, resolves the EA from it: no resolution
    request is sent, and the signals request, if the entry holds an EA, is
    for that EA. *)
Theorem eaCache_survives_teardown (w : World) (how : list Event) (key : string)
  (ea : option string) (ts : Z) (d : N) (f g : option Callback) (net : Net) :
  how = [CallStop] ∨ how = [CallDisable; CallEnable] →
  isEnabled (svc w) = true →
  eaCache (svc w) !! key = Some (ea, ts) →
  let w1 := run (how ++ [Elapse d]) w in
  clock (env w1) - ts < EA_CACHE_TTL →
  eaCache (svc (step w CallStop)) = eaCache (svc w) ∧
  eaCache (svc (step w CallDisable)) = eaCache (svc w) ∧
  eaCache (svc w1) = eaCache (svc w) ∧
  let w2 := step w1 (CallStart key f g net) in
  ∃ new,
    trace (env w2) = trace (env w) ++ new ∧
    (HttpGetEA key ∉ new) ∧
    if truthy ea
    then ∃ tail, new = HttpGetSignals (default "" ea) (clock (env w1)) FETCH_DEADLINE :: tail
    else new = [].
Proof.
  intros Hhow Hen Hc w1 Hage.
  assert (eaCache (svc w1) = eaCache (svc w) ∧ isRunning (svc w1) = false ∧
          isEnabled (svc w1) = true ∧ trace (env w1) = trace (env w))
    as (Hcache & Hr & Hen1 & Htr).
  { subst w1. destruct Hhow as [-> | ->]; cbn; unfold step, exec; cbn [dispatch];
      unfold disableDatabaseConnections; cbv [mbind M_bind assign];
      rewrite !stopPolling_eq; cbn; rewrite ?Hen;
      destruct (intervalId (svc w)); cbn; done. }
  split; [unfold step, exec; cbn [dispatch]; by rewrite stopPolling_eq|].
  split; [unfold step, exec; cbn [dispatch]; unfold disableDatabaseConnections;
          cbv [mbind M_bind assign]; by rewrite stopPolling_eq|].
  split; [exact Hcache|]. cbv zeta. unfold step, exec. cbn [dispatch].
  rewrite (startPolling_idle w1 key f g net Hr), Hen1. cbn [snd].
  destruct (cached_cycle_trace key net (opened key f g w1) ea ts) as (new & Ht & Hn & Hs).
  - cbn. by rewrite Hcache.
  - exact Hage.
  - exists new. split; [by rewrite <- Htr|]. split; [exact Hn | exact Hs].
Qed.

Lemma eaCache_survives_teardown_witness :
  let w := run [CallStart "ABC123" (Some 7%nat) (Some 8%nat) healthy] (boot 1000000) in
  let how := [CallDisable; CallEnable] in
  let w1 := run (how ++ [Elapse 60000]) w in
  let w2 := step w1 (CallStart "ABC123" (Some 7%nat) (Some 8%nat) unresolved) in
  isEnabled (svc w) = true ∧
  eaCache (svc w) !! "ABC123" = Some (Some "MockEA", 1000120) ∧
  clock (env w1) - 1000120 < EA_CACHE_TTL ∧
  eaCache (svc (step w CallStop)) = eaCache (svc w) ∧
  eaCache (svc (step w CallDisable)) = eaCache (svc w) ∧
  eaCache (svc w1) = eaCache (svc w) ∧
  ∃ new,
    trace (env w2) = trace (env w) ++ new ∧
    (HttpGetEA "ABC123" ∉ new) ∧
    if truthy (Some "MockEA")
    then ∃ tail,
           new = HttpGetSignals (default "" (Some "MockEA")) (clock (env w1)) FETCH_DEADLINE
                 :: tail
    else new = [].
Proof.
  cbv zeta.
  assert (isEnabled (svc (run [CallStart "ABC123" (Some 7%nat) (Some 8%nat) healthy]
                            (boot 1000000))) = true) as He
    by (vm_compute; reflexivity).
  assert (eaCache (svc (run [CallStart "ABC123" (Some 7%nat) (Some 8%nat) healthy]
                          (boot 1000000))) !! "ABC123" = Some (Some "MockEA", 1000120)) as Hc
    by (vm_compute; reflexivity).
  assert (clock (env (run ([CallDisable; CallEnable] ++ [Elapse 60000])
                        (run [CallStart "ABC123" (Some 7%nat) (Some 8%nat) healthy]
                           (boot 1000000)))) - 1000120 < EA_CACHE_TTL) as Ha
    by (vm_compute; reflexivity).
  split; [exact He|]. split; [exact Hc|]. split; [exact Ha|].
  apply (eaCache_survives_teardown
           (run [CallStart "ABC123" (Some 7%nat) (Some 8%nat) healthy] (boot 1000000))
           [CallDisable; CallEnable] "ABC123" (Some "MockEA") 1000120 60000%N
           (Some 7%nat) (Some 8%nat) unresolved (or_intror eq_refl) He Hc Ha).
Defined.

(** ** The mock session *)

Lemma remote_deliveries (cb : option Callback) (signals : list DatabaseSignal.t) :
  Forall (λ e, remote e = false) (deliveries cb signals).
Proof.
  destruct cb as [f|]; [|constructor]. cbn.
  induction signals as [|signal rest IH]; constructor; [reflexivity | exact IH].
Qed.

Lemma deliveries_cons (cb : option Callback) (signal : DatabaseSignal.t)
  (signals : list DatabaseSignal.t) :
  deliveries cb (signal :: signals) = deliveries cb [signal] ++ deliveries cb signals.
Proof. destruct cb; reflexivity. Qed.

(** While the mock timer is installed, every tick that is due fabricates one
    signal and hands it to [onSignalFound]; the service itself does not
    change, so the next tick does the same. *)
Lemma mock_ticks (h : positive) (ticks : list (N * Net * MockDraw)) :
  ∀ (due : Z) (w : World),
    intervals (env w) = [mkInterval h POLL_PERIOD due MockJob] →
    due ≤ clock (env w) + POLL_PERIOD →
    Forall (λ tick, POLL_PERIOD ≤ Z.of_N tick.1.1) ticks →
    let w' := run (tick_events h ticks) w in
    svc w' = svc w ∧
    trace (env w') =
      trace (env w) ++ deliveries (onSignalFound (svc w)) (mock_feed (clock (env w)) ticks).
Proof.
  induction ticks as [|[[d net] dr] rest IH]; intros due w Hiv Hdue Hticks.
  - cbn. split; [reflexivity|]. unfold deliveries.
    destruct (onSignalFound (svc w)); cbn; by rewrite app_nil_r.
  - apply Forall_cons in Hticks as [Hd Hrest]. cbn in Hd.
    cbn [tick_events flat_map app mock_feed fst snd]. rewrite !run_cons.
    set (w1 := step w (Elapse d)).
    assert (step w1 (IntervalFires h net dr) =
            mkWorld (svc w)
              (set_trace
                 (trace (env w) ++
                  deliveries (onSignalFound (svc w)) [mockSignal (clock (env w) + Z.of_N d) dr])
                 (set_intervals
                    [mkInterval h POLL_PERIOD (clock (env w) + Z.of_N d + POLL_PERIOD) MockJob]
                    (env w1)))) as Hstep.
    { unfold step at 1, exec. cbn [dispatch]. rewrite fireInterval_eq.
      subst w1. cbn. rewrite Hiv. cbn. rewrite bool_decide_eq_true_2 by done. cbn.
      destruct (Z.leb_spec due (clock (env w) + Z.of_N d)); [|lia].
      rewrite intervalCallback_mock. unfold rearmed. cbn. rewrite Hiv. cbn.
      rewrite bool_decide_eq_true_2 by done. reflexivity. }
    fold (tick_events h rest). rewrite Hstep. clear Hstep.
    edestruct (IH (clock (env w) + Z.of_N d + POLL_PERIOD)) as [Hs Ht];
      [| | exact Hrest | cbv zeta in Hs, Ht; rewrite Hs, Ht ].
    + reflexivity.
    + cbn. lia.
    + cbn. split; [reflexivity|].
      rewrite (deliveries_cons _ _ (mock_feed _ rest)), app_assoc. reflexivity.
Qed.

(** C10: if the service is disabled when [startPolling] is called, a session
    is created all the same: a timer with a 30-second period is installed
    whose ticks fabricate mock signals, so [isRunning()] is true and
    [onSignalFound] receives one fabricated signal per tick, while nothing is
    ever sent to a remote collaborator. *)
Theorem disabled_start_runs_mock_session (es : list Event) (t0 : Z) (key : string)
  (f g : option Callback) (net : Net) (ticks : list (N * Net * MockDraw)) :
  let w := run es (boot t0) in
  isEnabled (svc w) = false →
  isRunning (svc w) = false →
  Forall (λ tick, POLL_PERIOD ≤ Z.of_N tick.1.1) ticks →
  let h := nextHandle (env w) in
  let w' := exec (startPolling key f g net) w in
  let w'' := run (tick_events h ticks) w' in
  isRunning (svc w') = true ∧
  intervals (env w') = [mkInterval h 30000 (clock (env w) + 30000) MockJob] ∧
  trace (env w') = trace (env w) ∧
  isRunning (svc w'') = true ∧
  ∃ new,
    trace (env w'') = trace (env w) ++ new ∧
    new = deliveries f (mock_feed (clock (env w)) ticks) ∧
    Forall (λ e, remote e = false) new.
Proof.
  cbv zeta. generalize (invariant_run es (boot t0) (invariant_boot t0)).
  generalize (run es (boot t0)). intros w [Hone _] Hen Hr Hticks.
  unfold exec. rewrite (startPolling_idle w key f g net Hr), Hen. cbn [snd].
  assert (intervals (env w) = []) as Hnil.
  { unfold one_timer, isRunning in *. destruct (intervalId (svc w)); [discriminate|].
    by apply fmap_nil_inv in Hone. }
  assert (intervals (env (opened key f g w)) =
          [mkInterval (nextHandle (env w)) POLL_PERIOD (clock (env w) + POLL_PERIOD) MockJob])
    as Hiv.
  { unfold opened. cbn. rewrite Hnil, Hen. reflexivity. }
  destruct (mock_ticks (nextHandle (env w)) ticks _ (opened key f g w) Hiv) as [Hs Ht];
    [cbn; lia | exact Hticks |]. cbv zeta in Hs, Ht.
  repeat split; try reflexivity; [exact Hiv | by rewrite Hs |].
  eexists. split; [exact Ht|]. split; [reflexivity | apply remote_deliveries].
Qed.

Lemma disabled_start_runs_mock_session_witness :
  let w := run [CallDisable] (boot 1000000) in
  let ticks := [(30000%N, healthy, draw); (30000%N, failing, draw)] in
  let w' := exec (startPolling "ABC123" (Some 7%nat) (Some 8%nat) healthy) w in
  let w'' := run (tick_events (nextHandle (env w)) ticks) w' in
  isEnabled (svc w) = false ∧
  isRunning (svc w) = false ∧
  Forall (λ tick, POLL_PERIOD ≤ Z.of_N tick.1.1) ticks ∧
  isRunning (svc w') = true ∧
  isRunning (svc w'') = true ∧
  ∃ new,
    trace (env w'') = trace (env w) ++ new ∧
    new = deliveries (Some 7%nat) (mock_feed (clock (env w)) ticks).
Proof.
  cbv zeta.
  assert (isEnabled (svc (run [CallDisable] (boot 1000000))) = false) as He
    by (vm_compute; reflexivity).
  assert (isRunning (svc (run [CallDisable] (boot 1000000))) = false) as Hr
    by (vm_compute; reflexivity).
  assert (Forall (λ tick : N * Net * MockDraw, POLL_PERIOD ≤ Z.of_N tick.1.1)
            [(30000%N, healthy, draw); (30000%N, failing, draw)]) as Hticks
    by (repeat constructor; vm_compute; discriminate).
  split; [exact He|]. split; [exact Hr|]. split; [exact Hticks|].
  destruct (disabled_start_runs_mock_session [CallDisable] 1000000 "ABC123"
              (Some 7%nat) (Some 8%nat) healthy
              [(30000%N, healthy, draw); (30000%N, failing, draw)]
              He Hr Hticks) as (H1 & _ & _ & H2 & new & H3 & H4 & _).
  split; [exact H1|]. split; [exact H2|]. exists new. split; [exact H3 | exact H4].
Defined.

(** ** Suspension and restart *)

(** Suspending calls [stopPolling], which forgets the license key; the
    restart closure, which only acts when there is a license key, then does
    nothing. *)
Lemma suspension_forgets_license (key : string) (net : Net) (w : World) :
  outcome key net w = FetchFailed →
  (maxConsecutiveErrors ≤ S (consecutiveErrors (svc w)))%nat →
  let w' := exec (checkForNewSignals key net) w in
  currentLicenseKey (svc w') = None ∧
  isRunning (svc w') = false ∧
  ∀ net', restartAfterCooldown net' w' = (Normal tt, w').
Proof.
  cbv zeta. intros Ho Hn.
  assert (currentLicenseKey (svc (exec (checkForNewSignals key net) w)) = None) as Hk.
  { revert Ho. cycle_cases key net w; try discriminate; intros _;
      rewrite bool_decide_eq_true_2 by exact Hn; reflexivity. }
  split; [exact Hk|]. split.
  - pose proof (cycle_counter key net w) as H. cbv zeta in H. rewrite Ho in H.
    rewrite bool_decide_eq_true_2 in H by exact Hn.
    destruct H as [_ [H _]]. unfold isRunning. by rewrite H.
  - intros net'. apply restartAfterCooldown_no_key. by rewrite Hk.
Qed.

(** C1, on the code: after three consecutive failures of the signals fetch
    the timer is stopped and one restart is pending, due five minutes later,
    but the license key has been cleared with the rest of the session; when
    the cooldown has elapsed and the restart fires, nothing happens: the
    poller is not running, the counter still reads 3 and nothing more is
    pending. *)
Theorem no_restart_after_cooldown :
  let w3 := run three_failures (boot 1000000) in
  let w4 := run [Elapse 300000; TimeoutFires 2 healthy] w3 in
  (consecutiveErrors (svc w3) = 3%nat ∧
   isRunning (svc w3) = false ∧
   currentLicenseKey (svc w3) = None ∧
   timeouts (env w3) = [mkPending 2 (clock (env w3) + 300000)]) ∧
  (clock (env w4) = clock (env w3) + 300000 ∧
   timeouts (env w4) = [] ∧
   isRunning (svc w4) = false ∧
   currentLicenseKey (svc w4) = None ∧
   consecutiveErrors (svc w4) = 3%nat ∧
   trace (env w4) = trace (env w3)).
Proof. vm_compute. repeat split. Qed.

(** ** Reporting failures *)

Lemma startPolling_normal (key : string) (f g : option Callback) (net : Net) (w : World) :
  completion (startPolling key f g net) w = Normal tt.
Proof.
  unfold completion. destruct (isRunning (svc w)) eqn:Hr.
  - by rewrite startPolling_running.
  - by rewrite startPolling_idle.
Qed.

(** X1: no public method and no timer callback lets an exception escape:
    resolution and fetch failures never raise past the cycle boundary. *)
Theorem dispatch_never_raises (e : Event) (w : World) :
  completion (dispatch e) w = Normal tt.
Proof.
  destruct e as [d| | |key f g net| |h net d|h net]; cbn [dispatch].
  - reflexivity.
  - reflexivity.
  - unfold completion, disableDatabaseConnections. cbv [mbind M_bind assign].
    by rewrite stopPolling_eq.
  - apply startPolling_normal.
  - unfold completion. by rewrite stopPolling_eq.
  - unfold completion. rewrite fireInterval_eq.
    destruct (List.find _ _) as [iv|]; [|reflexivity].
    destruct (iv_due iv <=? clock (env w)); [|reflexivity].
    destruct (iv_job iv); [by rewrite intervalCallback_mock | by rewrite intervalCallback_poll].
  - unfold completion. rewrite fireTimeout_eq.
    destruct (List.find _ _) as [p|]; [|reflexivity].
    destruct (pd_due p <=? clock (env w)); [|reflexivity].
    rewrite restartAfterCooldown_eq. cbn [svc env].
    destruct (currentLicenseKey (svc w)) as [[|c rest]|]; try reflexivity.
    apply startPolling_normal.
Qed.



(** C8, on the code: a failure of the cycle that [startPolling] runs at once
    is caught by a handler that only logs.  Here the signals fetch of the
    initial check fails: the counter goes to 1 and [onError] is not called;
    the same failure on the first tick of the timer is reported. *)
Theorem initial_failure_is_not_reported :
  let w := run [CallStart "ABC123" (Some 7%nat) (Some 8%nat) failing] (boot 1000000) in
  let w' := run [Elapse 30000; IntervalFires 1 failing draw] w in
  outcome "ABC123" failing (opened "ABC123" (Some 7%nat) (Some 8%nat) (boot 1000000)) =
    FetchFailed ∧
  onError (svc w) = Some 8%nat ∧
  consecutiveErrors (svc w) = 1%nat ∧
  trace (env w) = [HttpGetEA "ABC123"; HttpGetSignals "MockEA" 1000000 10000] ∧
  trace (env w') =
    trace (env w) ++
    [HttpGetSignals "MockEA" 1000000 10000;
     ErrorReported 8%nat "Database error: Error: Failed to fetch new signals"].
Proof. vm_compute. repeat split. Qed.

(** * Further properties of the polling service *)

(** ** The session and its timer *)

Lemma cycle_session (key : string) (net : Net) (w : World) :
  let w' := exec (checkForNewSignals key net) w in
  (same_timers w w' ∧ currentLicenseKey (svc w') = currentLicenseKey (svc w)) ∨
  (suspended w w' ∧ currentLicenseKey (svc w') = None).
Proof.
  cbv zeta. cycle_cases key net w; cbn; repeat case_bool_decide; cbn;
    first [ by left; repeat split
          | right; unfold suspended; cbn; by destruct (intervalId (svc w)) ].
Qed.

Lemma session_ok_cycle (key : string) (net : Net) (w : World) :
  session_ok w → session_ok (exec (checkForNewSignals key net) w).
Proof.
  unfold session_ok. intros H.
  pose proof (cycle_clock key net w) as Hclock.
  destruct (cycle_callbacks key net w) as (Hen & _ & _). cbv zeta in Hen.
  destruct (cycle_session key net w) as [[(Hid & Hiv & _) Hk]|[(Hid & Hiv & _) Hk]];
    cbv zeta in *; rewrite Hid, Hiv, Hk.
  - destruct (intervalId (svc w)) as [h|]; [|exact H].
    destruct H as (k & due & job & H1 & H2 & H3 & H4 & H5).
    exists k, due, job. rewrite Hen. repeat split; try done. lia.
  - split; [|reflexivity].
    destruct (intervalId (svc w)) as [h|]; [|apply H].
    destruct H as (k & due & job & _ & H2 & _). rewrite H2.
    rewrite filter_cons. cbn. case_decide; [congruence | reflexivity].
Qed.

Lemma session_ok_no_other_timer (w : World) :
  session_ok w →
  match intervalId (svc w) with
  | Some h => filter (λ iv, iv_handle iv ≠ h) (intervals (env w))
  | None => intervals (env w)
  end = [].
Proof.
  unfold session_ok. destruct (intervalId (svc w)) as [h|]; [|by intros [? _]].
  intros (k & due & job & _ & -> & _).
  rewrite filter_cons. cbn. case_decide; [congruence | reflexivity].
Qed.

Lemma session_ok_stop (w : World) : session_ok w → session_ok (exec stopPolling w).
Proof.
  intros H. pose proof (session_ok_no_other_timer w H) as Hnil.
  unfold session_ok, exec. rewrite stopPolling_eq. cbn.
  split; [|reflexivity]. by destruct (intervalId (svc w)).
Qed.

Lemma session_ok_opened (key : string) (f g : option Callback) (w : World) :
  isRunning (svc w) = false → session_ok w → session_ok (opened key f g w).
Proof.
  unfold session_ok, isRunning, opened. cbn.
  destruct (intervalId (svc w)); [discriminate|]. intros _ [H1 _].
  exists key, (clock (env w) + POLL_PERIOD),
    (if isEnabled (svc w) then PollJob key else MockJob).
  rewrite H1. split; [reflexivity|]. split; [reflexivity|]. split; [lia|]. split.
  - destruct (isEnabled (svc w)); [by right | by left].
  - by intros ->.
Qed.

Lemma session_ok_start (key : string) (f g : option Callback) (net : Net) (w : World) :
  session_ok w → session_ok (exec (startPolling key f g net) w).
Proof.
  intros H. unfold exec. destruct (isRunning (svc w)) eqn:Hr.
  - by rewrite startPolling_running.
  - rewrite startPolling_idle by done. cbn [snd].
    pose proof (session_ok_opened key f g w Hr H).
    destruct (isEnabled (svc w)); [by apply session_ok_cycle | done].
Qed.

Lemma session_ok_step (w : World) (e : Event) : session_ok w → session_ok (step w e).
Proof.
  intros H. destruct e as [d| | |key f g net| |h net d|h net]; unfold step; cbn [dispatch].
  - unfold session_ok in *. cbn. destruct (intervalId (svc w)); [|exact H].
    destruct H as (k & due & job & H1 & H2 & H3 & H4 & H5).
    exists k, due, job. split; [done|]. split; [done|]. split; [lia|]. done.
  - unfold session_ok in *. cbn. destruct (intervalId (svc w)); [|exact H].
    destruct H as (k & due & job & H1 & H2 & H3 & H4 & H5).
    exists k, due, job. done.
  - pose proof (session_ok_no_other_timer w H) as Hnil.
    unfold session_ok, exec, disableDatabaseConnections. cbv [mbind M_bind assign].
    rewrite stopPolling_eq. cbn. split; [|reflexivity]. by destruct (intervalId (svc w)).
  - by apply session_ok_start.
  - by apply session_ok_stop.
  - unfold exec. rewrite fireInterval_eq.
    destruct (List.find _ _) as [iv|] eqn:Hfind; [|exact H].
    destruct (iv_due iv <=? clock (env w)); [|exact H].
    assert (session_ok (rearmed h w) ∧
            (iv_job iv = MockJob ∨ ∃ key, iv_job iv = PollJob key)) as [Hr Hjob].
    { unfold session_ok in *. unfold rearmed. cbn.
      destruct (intervalId (svc w)) as [h0|].
      - destruct H as (k & due & job & H1 & H2 & H3 & H4 & H5).
        rewrite H2 in Hfind |- *. cbn in Hfind |- *.
        case_bool_decide; [|discriminate]. injection Hfind as <-. cbn. subst h0.
        split; [|destruct H4; eauto].
        exists k, (clock (env w) + POLL_PERIOD), job. split; [done|]. split; [done|].
        split; [lia|]. done.
      - destruct H as [H1 _]. rewrite H1 in Hfind. discriminate. }
    destruct Hjob as [-> | [key ->]].
    + rewrite intervalCallback_mock. exact Hr.
    + rewrite intervalCallback_poll. cbv zeta. cbn [snd].
      pose proof (session_ok_cycle key net _ Hr).
      destruct (completion _ _); done.
  - unfold exec. rewrite fireTimeout_eq.
    destruct (List.find _ _) as [p|]; [|exact H].
    destruct (pd_due p <=? clock (env w)); [|exact H].
    rewrite restartAfterCooldown_eq. cbn [svc env].
    destruct (currentLicenseKey (svc w)) as [[|c rest]|] eqn:Hk; cbn; try exact H.
    apply (session_ok_start (String c rest) _ _ net
             (mkWorld (set_consecutiveErrors 0%nat (svc w))
                (set_timeouts (filter (λ p, pd_handle p ≠ h) (timeouts (env w))) (env w)))).
    exact H.
Qed.

Lemma session_ok_run (es : list Event) (w : World) : session_ok w → session_ok (run es w).
Proof.
  revert w. induction es as [|e es IH]; intros w H; [exact H|].
  rewrite run_cons. apply IH, session_ok_step, H.
Qed.

Lemma session_ok_boot (t0 : Z) : session_ok (boot t0).
Proof. split; reflexivity. Qed.

(** X3: in every world the event loop can reach, what [getStatus()] reports
    is what the host runs.  If no license key is reported, the poller is not
    running and the host holds no recurring timer; if a license key is
    reported, the poller is running and the host holds exactly one timer,
    with a period of 30 seconds, whose closure is the mock generator or the
    polling tick for the reported license key, and the mock generator
    whenever the service is disabled. *)
Theorem getStatus_matches_timer (es : list Event) (t0 : Z) :
  let w := run es (boot t0) in
  let status := getStatus (svc w) in
  match st_licenseKey status with
  | None => st_isRunning status = false ∧ intervals (env w) = []
  | Some key =>
      st_isRunning status = true ∧
      ∃ h due job,
        intervalId (svc w) = Some h ∧
        intervals (env w) = [mkInterval h 30000 due job] ∧
        (job = MockJob ∨ job = PollJob key) ∧
        (st_isEnabled status = false → job = MockJob)
  end.
Proof.
  cbv zeta. generalize (session_ok_run es (boot t0) (session_ok_boot t0)).
  generalize (run es (boot t0)). intros w H.
  unfold session_ok in H. unfold getStatus, isRunning. cbn.
  destruct (intervalId (svc w)) as [h|].
  - destruct H as (k & due & job & -> & H2 & _ & H4 & H5).
    split; [reflexivity|]. exists h, due, job. done.
  - destruct H as [H1 ->]. done.
Qed.

(** ** Disabled means offline *)

Lemma silent_nil : silent [].
Proof. constructor. Qed.

Lemma silent_app (l1 l2 : list Effect) : silent l1 → silent l2 → silent (l1 ++ l2).
Proof. unfold silent. intros. by apply Forall_app. Qed.

Lemma disabled_step_is_silent (w : World) (e : Event) :
  session_ok w →
  isEnabled (svc w) = false →
  e ≠ CallEnable →
  isEnabled (svc (step w e)) = false ∧
  ∃ new, trace (env (step w e)) = trace (env w) ++ new ∧ silent new.
Proof.
  intros H Hen He.
  assert (∀ w', isEnabled (svc w') = false → trace (env w') = trace (env w) →
            isEnabled (svc w') = false ∧
            ∃ new, trace (env w') = trace (env w) ++ new ∧ silent new) as Hsame.
  { intros w' H1 H2. split; [exact H1|]. exists []. rewrite app_nil_r.
    split; [exact H2 | apply silent_nil]. }
  assert (∀ key f g net w0,
            isEnabled (svc w0) = false → trace (env w0) = trace (env w) →
            isEnabled (svc (exec (startPolling key f g net) w0)) = false ∧
            trace (env (exec (startPolling key f g net) w0)) = trace (env w)) as Hstart.
  { intros key f g net w0 H1 H2. unfold exec. destruct (isRunning (svc w0)) eqn:Hr.
    - by rewrite startPolling_running.
    - rewrite startPolling_idle by done. rewrite H1. by cbn. }
  destruct e as [d| | |key f g net| |h net d|h net]; unfold step; cbn [dispatch].
  - by apply Hsame.
  - done.
  - apply Hsame; unfold exec, disableDatabaseConnections; cbv [mbind M_bind assign];
      rewrite stopPolling_eq; cbn; [done | by destruct (intervalId (svc w))].
  - destruct (Hstart key f g net w Hen eq_refl). by apply Hsame.
  - apply Hsame; unfold exec; rewrite stopPolling_eq; cbn;
      [done | by destruct (intervalId (svc w))].
  - unfold exec. rewrite fireInterval_eq.
    destruct (List.find _ _) as [iv|] eqn:Hfind; [|by apply Hsame].
    destruct (iv_due iv <=? clock (env w)); [|by apply Hsame].
    assert (iv_job iv = MockJob) as ->.
    { unfold session_ok in H. destruct (intervalId (svc w)) as [h0|].
      - destruct H as (k & due & job & _ & H2 & _ & _ & H5).
        rewrite H2 in Hfind. cbn in Hfind. case_bool_decide; [|discriminate].
        injection Hfind as <-. by apply H5.
      - destruct H as [H1 _]. rewrite H1 in Hfind. discriminate. }
    rewrite intervalCallback_mock. cbn. split; [exact Hen|].
    eexists. split; [reflexivity | apply remote_deliveries].
  - unfold exec. rewrite fireTimeout_eq.
    destruct (List.find _ _) as [p|]; [|by apply Hsame].
    destruct (pd_due p <=? clock (env w)); [|by apply Hsame].
    rewrite restartAfterCooldown_eq. cbn [svc env].
    destruct (currentLicenseKey (svc w)) as [[|c rest]|]; cbn [snd]; try by apply Hsame.
    edestruct (Hstart (String c rest) (onSignalFound (svc w)) (onError (svc w)) net
                 (mkWorld (set_consecutiveErrors 0%nat (svc w))
                    (set_timeouts (filter (λ p, pd_handle p ≠ h) (timeouts (env w)))
                       (env w)))) as [H1 H2]; [exact Hen | reflexivity |].
    unfold exec in H1, H2. by apply Hsame.
Qed.



(** ** Stopping *)

(** X5: [stopPolling] ends the session and nothing else.  In every reachable
    world it leaves the poller not running, with no license key, EA or
    watermark and no recurring timer at the host, while the callbacks, the
    resolution cache, the error counter, the enabled flag and any pending
    restart stay as they were; after it no tick of a timer does anything,
    and stopping again changes nothing. *)
Theorem stopPolling_ends_the_session (es : list Event) (t0 : Z) :
  let w0 := run es (boot t0) in
  let w := step w0 CallStop in
  getStatus (svc w) = mkStatus false None None None (isEnabled (svc w0)) ∧
  intervals (env w) = [] ∧
  (onSignalFound (svc w) = onSignalFound (svc w0) ∧
   onError (svc w) = onError (svc w0) ∧
   eaCache (svc w) = eaCache (svc w0) ∧
   consecutiveErrors (svc w) = consecutiveErrors (svc w0) ∧
   timeouts (env w) = timeouts (env w0) ∧
   trace (env w) = trace (env w0)) ∧
  (∀ h net d, step w (IntervalFires h net d) = w) ∧
  step w CallStop = w.
Proof.
  cbv zeta. generalize (session_ok_run es (boot t0) (session_ok_boot t0)).
  generalize (run es (boot t0)). intros w H.
  pose proof (session_ok_no_other_timer w H) as Hnil.
  unfold step, exec. cbn [dispatch]. rewrite stopPolling_eq. cbn [snd].
  assert (intervals
            (match intervalId (svc w) with
             | Some h =>
                 set_intervals (filter (λ iv, iv_handle iv ≠ h) (intervals (env w))) (env w)
             | None => env w
             end) = []) as Hiv by (by destruct (intervalId (svc w))).
  split; [reflexivity|]. split; [exact Hiv|].
  split; [cbn; by destruct (intervalId (svc w))|]. split.
  - intros h net d. rewrite fireInterval_eq. cbn [env]. rewrite Hiv. reflexivity.
  - rewrite stopPolling_eq. reflexivity.
Qed.

(** ** The restart timer *)

(** X6: in every reachable world, the restart closure that a suspension
    schedules never starts polling.  When the host runs it, the recurring
    timers, the clock and the trace stay as they are and the one-shot timer
    is removed; the service is left as it is, except that the error counter
    is reset to zero exactly when the timer was pending and due and the
    license key at that moment is a non-empty string.  A session is then
    running, which is why the [startPolling] of the closure does nothing. *)
Theorem restart_timer_never_starts_polling (es : list Event) (t0 : Z) (h : positive)
  (net : Net) :
  let w := run es (boot t0) in
  let w' := step w (TimeoutFires h net) in
  svc w' =
    (if timeout_due h w && truthy (currentLicenseKey (svc w))
     then set_consecutiveErrors 0%nat (svc w)
     else svc w) ∧
  (truthy (currentLicenseKey (svc w)) = true → isRunning (svc w) = true) ∧
  timeouts (env w') =
    (if timeout_due h w
     then filter (λ p, pd_handle p ≠ h) (timeouts (env w))
     else timeouts (env w)) ∧
  intervals (env w') = intervals (env w) ∧
  clock (env w') = clock (env w) ∧
  trace (env w') = trace (env w).
Proof.
  cbv zeta. generalize (session_ok_run es (boot t0) (session_ok_boot t0)).
  generalize (run es (boot t0)). intros w H.
  assert (Hr : truthy (currentLicenseKey (svc w)) = true → isRunning (svc w) = true).
  { unfold session_ok, isRunning in *. destruct (intervalId (svc w)); [done|].
    destruct H as [_ ->]. done. }
  unfold step, exec, timeout_due. cbn [dispatch]. rewrite fireTimeout_eq.
  destruct (List.find _ _) as [p|]; [|done].
  destruct (pd_due p <=? clock (env w)); [|done].
  rewrite restartAfterCooldown_eq. cbn [svc env].
  destruct (currentLicenseKey (svc w)) as [[|c rest]|] eqn:Hk; try done.
  rewrite startPolling_running by (by apply Hr).
  done.
Qed.

(** ** A license without an EA *)

(** X7: a resolved "no EA" is cached like any other result, and silences the
    poller for the TTL.  After a cycle whose resolution request comes back
    with no EA (null or the empty string), every cycle for the same license
    key that starts less than 5 minutes later does nothing at all: it sends
    no request, calls no callback and leaves the whole state as it is. *)
Theorem no_ea_silences_cycles_for_ttl (key : string) (net net' : Net) (d : N)
  (w : World) (ea : option string) :
  stale w key →
  payload None (eaExchange net) = Some ea →
  truthy ea = false →
  Z.of_N d < EA_CACHE_TTL →
  let w1 := exec (elapse d) (exec (checkForNewSignals key net) w) in
  checkForNewSignals key net' w1 = (Normal tt, w1).
Proof.
  intros Hs Hp Hea Hd. cbv zeta.
  set (w0 := exec (checkForNewSignals key net) w).
  assert (eaCache (svc w0) !! key = Some (ea, clock (env w0))) as Hc.
  { subst w0. unfold exec.
    rewrite checkForNewSignals_eq, (getEAFromLicense_miss w key _ Hs). cbv zeta.
    rewrite Hp. destruct ea as [[|c rest]|]; try discriminate; cbn;
      by rewrite lookup_insert_eq. }
  rewrite checkForNewSignals_eq.
  rewrite (getEAFromLicense_hit (exec (elapse d) w0) key _ ea (clock (env w0)));
    [by destruct ea as [[|c rest]|] | exact Hc | cbn; lia].
Qed.

Lemma no_ea_silences_cycles_for_ttl_witness :
  let none := mkNet (mkExchange 120%N (Responded 200 (Some None)))
                (mkExchange 80%N (Responded 200 (Some [buy; sell]))) in
  let w := opened "ABC123" (Some 7%nat) (Some 8%nat) (boot 1000000) in
  let w1 := exec (elapse 30000) (exec (checkForNewSignals "ABC123" none) w) in
  stale w "ABC123" ∧
  payload None (eaExchange none) = Some None ∧
  truthy None = false ∧
  Z.of_N 30000 < EA_CACHE_TTL ∧
  checkForNewSignals "ABC123" healthy w1 = (Normal tt, w1).
Proof.
  cbv zeta.
  assert (stale (opened "ABC123" (Some 7%nat) (Some 8%nat) (boot 1000000)) "ABC123") as Hs
    by (vm_compute; exact I).
  split; [exact Hs|]. split; [reflexivity|]. split; [reflexivity|].
  split; [reflexivity|].
  apply (no_ea_silences_cycles_for_ttl "ABC123"
           (mkNet (mkExchange 120%N (Responded 200 (Some None)))
              (mkExchange 80%N (Responded 200 (Some [buy; sell]))))
           healthy 30000%N
           (opened "ABC123" (Some 7%nat) (Some 8%nat) (boot 1000000)) None);
    [exact Hs | reflexivity | reflexivity | reflexivity].
Defined.

(** ** Failing resolution *)

Lemma stale_later (w w' : World) (key : string) :
  eaCache (svc w') = eaCache (svc w) →
  clock (env w) ≤ clock (env w') →
  stale w key → stale w' key.
Proof.
  unfold stale. intros -> Hc. destruct (eaCache (svc w) !! key); [lia | done].
Qed.

Lemma resolution_errors_S (key : string) (g : option Callback) (n : nat) :
  resolution_errors key g (S n) =
  (HttpGetEA key :: reports g "Failed to fetch EA from license") ++
  resolution_errors key g n.
Proof. reflexivity. Qed.

(** While the resolution request fails, a tick of the polling timer sends the
    request, reports the failure, and leaves the service as it was. *)
Lemma failing_resolution_ticks (h : positive) (key : string)
  (ticks : list (N * Net * MockDraw)) :
  ∀ (due : Z) (w : World),
    intervals (env w) = [mkInterval h POLL_PERIOD due (PollJob key)] →
    due ≤ clock (env w) + POLL_PERIOD →
    stale w key →
    Forall (λ tick, POLL_PERIOD ≤ Z.of_N tick.1.1 ∧
                    payload None (eaExchange tick.1.2) = None) ticks →
    let w' := run (tick_events h ticks) w in
    svc w' = svc w ∧
    trace (env w') =
      trace (env w) ++ resolution_errors key (onError (svc w)) (length ticks).
Proof.
  induction ticks as [|[[d net] dr] rest IH]; intros due w Hiv Hdue Hs Hticks.
  - cbn. split; [reflexivity|]. by rewrite app_nil_r.
  - apply Forall_cons in Hticks as [[Hd Hp] Hrest]. cbn [fst snd] in Hd, Hp.
    cbn [tick_events flat_map app fst snd length]. rewrite !run_cons.
    set (w1 := step w (Elapse d)).
    assert (stale w1 key) as Hs1 by (apply (stale_later w); [done | cbn; lia | done]).
    assert (step w1 (IntervalFires h net dr) =
            mkWorld (svc w)
              (set_trace
                 (trace (env w) ++
                  HttpGetEA key :: reports (onError (svc w)) "Failed to fetch EA from license")
                 (set_clock (clock (env w) + Z.of_N d + Z.of_N (latency (eaExchange net)))
                    (set_intervals
                       [mkInterval h POLL_PERIOD (clock (env w) + Z.of_N d + POLL_PERIOD)
                          (PollJob key)]
                       (env w))))) as Hstep.
    { unfold step at 1, exec. cbn [dispatch]. rewrite fireInterval_eq.
      assert (intervals (env w1) = intervals (env w)) as -> by reflexivity.
      rewrite Hiv. cbn [List.find iv_handle]. rewrite bool_decide_eq_true_2 by done.
      cbn [iv_due iv_job]. assert (clock (env w1) = clock (env w) + Z.of_N d) as Hc1
        by reflexivity.
      rewrite Hc1. destruct (Z.leb_spec due (clock (env w) + Z.of_N d)); [|lia].
      rewrite intervalCallback_poll. cbv zeta. unfold completion, exec.
      rewrite checkForNewSignals_eq.
      rewrite (getEAFromLicense_miss (rearmed h w1) key (eaExchange net))
        by (apply (stale_later w1); [done | cbn; lia | done]).
      cbv zeta. rewrite Hp. unfold rearmed, requested. cbn. rewrite Hiv. cbn.
      rewrite bool_decide_eq_true_2 by done. rewrite <- app_assoc. reflexivity. }
    fold (tick_events h rest). rewrite Hstep. clear Hstep.
    edestruct (IH (clock (env w) + Z.of_N d + POLL_PERIOD)) as [Hsvc Ht];
      [| | | exact Hrest | cbv zeta in Hsvc, Ht; rewrite Hsvc, Ht ].
    + reflexivity.
    + cbn. lia.
    + apply (stale_later w); [done | cbn; lia | done].
    + cbn [svc env trace set_trace]. split; [reflexivity|].
      rewrite resolution_errors_S, <- !app_assoc. reflexivity.
Qed.

(** X8: failures of the license resolution never suspend the poller.  With a
    polling session running and no fresh cache entry for its license key, any
    number of consecutive ticks on which the resolution request fails leave
    the poller running with its error counter and watermark untouched: each
    tick sends the resolution request again and reports the failure through
    [onError], and no signals request is ever sent. *)
Theorem resolution_failures_never_suspend (es : list Event) (t0 : Z) (h : positive)
  (key : string) (due : Z) (ticks : list (N * Net * MockDraw)) :
  let w := run es (boot t0) in
  intervals (env w) = [mkInterval h POLL_PERIOD due (PollJob key)] →
  stale w key →
  Forall (λ tick, POLL_PERIOD ≤ Z.of_N tick.1.1 ∧
                  payload None (eaExchange tick.1.2) = None) ticks →
  let w' := run (tick_events h ticks) w in
  isRunning (svc w') = true ∧
  consecutiveErrors (svc w') = consecutiveErrors (svc w) ∧
  lastPollTime (svc w') = lastPollTime (svc w) ∧
  trace (env w') =
    trace (env w) ++ resolution_errors key (onError (svc w)) (length ticks).
Proof.
  cbv zeta. generalize (session_ok_run es (boot t0) (session_ok_boot t0)).
  generalize (run es (boot t0)). intros w Hok Hiv Hs Hticks.
  assert (isRunning (svc w) = true ∧ due ≤ clock (env w) + POLL_PERIOD) as [Hr Hdue].
  { unfold session_ok, isRunning in *. destruct (intervalId (svc w)).
    - destruct Hok as (k & due' & job & _ & H2 & H3 & _).
      rewrite Hiv in H2. simplify_eq. done.
    - destruct Hok as [H1 _]. rewrite Hiv in H1. discriminate. }
  destruct (failing_resolution_ticks h key ticks due w Hiv Hdue Hs Hticks) as [Hsvc Ht].
  cbv zeta in Hsvc, Ht. rewrite Hsvc, Ht. done.
Qed.

Lemma resolution_failures_never_suspend_witness :
  let w := run [CallStart "ABC123" (Some 7%nat) (Some 8%nat) unresolved] (boot 1000000) in
  let ticks := [(30000%N, unresolved, draw); (30000%N, unresolved, draw);
                (30000%N, unresolved, draw); (30000%N, unresolved, draw)] in
  let w' := run (tick_events 1 ticks) w in
  intervals (env w) = [mkInterval 1 POLL_PERIOD 1030000 (PollJob "ABC123")] ∧
  stale w "ABC123" ∧
  Forall (λ tick, POLL_PERIOD ≤ Z.of_N tick.1.1 ∧
                  payload None (eaExchange tick.1.2) = None) ticks ∧
  isRunning (svc w') = true ∧
  consecutiveErrors (svc w') = consecutiveErrors (svc w) ∧
  lastPollTime (svc w') = lastPollTime (svc w) ∧
  trace (env w') =
    trace (env w) ++ resolution_errors "ABC123" (onError (svc w)) (length ticks).
Proof.
  cbv zeta.
  assert (intervals (env (run [CallStart "ABC123" (Some 7%nat) (Some 8%nat) unresolved]
                            (boot 1000000))) =
          [mkInterval 1 POLL_PERIOD 1030000 (PollJob "ABC123")]) as Hiv
    by (vm_compute; reflexivity).
  assert (stale (run [CallStart "ABC123" (Some 7%nat) (Some 8%nat) unresolved]
                   (boot 1000000)) "ABC123") as Hs by (vm_compute; exact I).
  assert (Forall (λ tick : N * Net * MockDraw,
                    POLL_PERIOD ≤ Z.of_N tick.1.1 ∧
                    payload None (eaExchange tick.1.2) = None)
            [(30000%N, unresolved, draw); (30000%N, unresolved, draw);
             (30000%N, unresolved, draw); (30000%N, unresolved, draw)]) as Hticks
    by (repeat constructor; vm_compute; discriminate).
  split; [exact Hiv|]. split; [exact Hs|]. split; [exact Hticks|].
  exact (resolution_failures_never_suspend
           [CallStart "ABC123" (Some 7%nat) (Some 8%nat) unresolved] 1000000 1 "ABC123"
           1030000 _ Hiv Hs Hticks).
Defined.

(** ** The error counter across sessions *)

(** X9: [stopPolling] and [startPolling] do not reset the consecutive-error
    counter, so failures of an earlier session count against the next one.
    If the counter stands at two or more when a session is stopped, the
    session started next is suspended by the first failed signals fetch of
    its initial check: the timer it has just installed is cleared, the
    license key is forgotten and a restart is scheduled. *)
Theorem earlier_failures_suspend_next_session (w0 : World) (key : string)
  (f g : option Callback) (net : Net) :
  let w := step w0 CallStop in
  let w' := step w (CallStart key f g net) in
  isEnabled (svc w0) = true →
  (2 ≤ consecutiveErrors (svc w0))%nat →
  outcome key net (opened key f g w) = FetchFailed →
  consecutiveErrors (svc w) = consecutiveErrors (svc w0) ∧
  consecutiveErrors (svc w') = S (consecutiveErrors (svc w0)) ∧
  isRunning (svc w') = false ∧
  currentLicenseKey (svc w') = None ∧
  timeouts (env w') =
    timeouts (env w0) ++
    [mkPending (Pos.succ (nextHandle (env w0))) (clock (env w') + RESTART_DELAY)].
Proof.
  cbv zeta. intros Hen Hn.
  assert (svc (step w0 CallStop) =
          set_lastPollTime None (set_currentEA None (set_currentLicenseKey None
            (set_intervalId None (svc w0)))) ∧
          timeouts (env (step w0 CallStop)) = timeouts (env w0) ∧
          nextHandle (env (step w0 CallStop)) = nextHandle (env w0)) as (Hsvc & Hto & Hnh).
  { unfold step, exec. cbn [dispatch]. rewrite stopPolling_eq. cbn.
    by destruct (intervalId (svc w0)). }
  generalize dependent (step w0 CallStop). intros w Hsvc Hto Hnh Ho.
  assert (isRunning (svc w) = false ∧ isEnabled (svc w) = true ∧
          consecutiveErrors (svc w) = consecutiveErrors (svc w0)) as (Hr & Hen' & Hc)
    by (by rewrite Hsvc).
  split; [exact Hc|].
  unfold step, exec. cbn [dispatch].
  rewrite (startPolling_idle w key f g net Hr), Hen'. cbn [snd].
  assert (maxConsecutiveErrors ≤ S (consecutiveErrors (svc (opened key f g w))))%nat as Hmax
    by (cbn; rewrite Hc; unfold maxConsecutiveErrors; lia).
  destruct (suspension_forgets_license key net (opened key f g w) Ho Hmax) as (Hk & Hrun & _).
  cbv zeta in Hk, Hrun.
  pose proof (cycle_counter key net (opened key f g w)) as H. cbv zeta in H.
  rewrite Ho in H. rewrite bool_decide_eq_true_2 in H by exact Hmax.
  destruct H as [Hcount (_ & _ & Htimeouts)].
  split; [by rewrite Hcount; cbn; rewrite Hc|]. split; [exact Hrun|]. split; [exact Hk|].
  rewrite Htimeouts. cbn. by rewrite Hto, Hnh.
Qed.

Lemma earlier_failures_suspend_next_session_witness :
  let w0 := run [CallStart "ABC123" (Some 7%nat) (Some 8%nat) failing;
                 Elapse 30000; IntervalFires 1 failing draw] (boot 1000000) in
  let w := step w0 CallStop in
  let w' := step w (CallStart "XYZ789" (Some 7%nat) (Some 8%nat) failing) in
  isEnabled (svc w0) = true ∧
  (2 ≤ consecutiveErrors (svc w0))%nat ∧
  outcome "XYZ789" failing (opened "XYZ789" (Some 7%nat) (Some 8%nat) w) = FetchFailed ∧
  consecutiveErrors (svc w') = S (consecutiveErrors (svc w0)) ∧
  isRunning (svc w') = false.
Proof.
  cbv zeta.
  assert (isEnabled (svc (run [CallStart "ABC123" (Some 7%nat) (Some 8%nat) failing;
                                Elapse 30000; IntervalFires 1 failing draw]
                            (boot 1000000))) = true) as Hen by (vm_compute; reflexivity).
  assert (2 ≤ consecutiveErrors
                (svc (run [CallStart "ABC123" (Some 7%nat) (Some 8%nat) failing;
                           Elapse 30000; IntervalFires 1 failing draw]
                        (boot 1000000))))%nat as Hn by (vm_compute; lia).
  assert (outcome "XYZ789" failing
            (opened "XYZ789" (Some 7%nat) (Some 8%nat)
               (step (run [CallStart "ABC123" (Some 7%nat) (Some 8%nat) failing;
                           Elapse 30000; IntervalFires 1 failing draw] (boot 1000000))
                  CallStop)) = FetchFailed) as Ho by (vm_compute; reflexivity).
  split; [exact Hen|]. split; [exact Hn|]. split; [exact Ho|].
  destruct (earlier_failures_suspend_next_session _ "XYZ789" (Some 7%nat) (Some 8%nat)
              failing Hen Hn Ho) as (_ & H1 & H2 & _).
  split; [exact H1 | exact H2].
Defined.

(** ** Enabling during a mock session *)

(** X10: [enableDatabaseConnections] only sets the flag; it does not touch a
    running session.  If the service is enabled while a mock session is
    running, the mock timer stays installed and goes on fabricating signals:
    every later tick hands one mock signal to [onSignalFound] and sends
    nothing, although the service is now enabled. *)
Theorem enabling_keeps_the_mock_session (es : list Event) (t0 : Z) (h : positive)
  (due : Z) (ticks : list (N * Net * MockDraw)) :
  let w := run es (boot t0) in
  intervals (env w) = [mkInterval h POLL_PERIOD due MockJob] →
  Forall (λ tick, POLL_PERIOD ≤ Z.of_N tick.1.1) ticks →
  let w' := run (CallEnable :: tick_events h ticks) w in
  isEnabled (svc w') = true ∧
  isRunning (svc w') = isRunning (svc w) ∧
  trace (env w') =
    trace (env w) ++ deliveries (onSignalFound (svc w)) (mock_feed (clock (env w)) ticks).
Proof.
  cbv zeta. generalize (session_ok_run es (boot t0) (session_ok_boot t0)).
  generalize (run es (boot t0)). intros w Hok Hiv Hticks.
  assert (due ≤ clock (env w) + POLL_PERIOD) as Hdue.
  { unfold session_ok in Hok. destruct (intervalId (svc w)).
    - destruct Hok as (k & due' & job & _ & H2 & H3 & _).
      rewrite Hiv in H2. simplify_eq. done.
    - destruct Hok as [H1 _]. rewrite Hiv in H1. discriminate. }
  rewrite run_cons.
  destruct (mock_ticks h ticks due (step w CallEnable) Hiv Hdue Hticks) as [Hs Ht].
  cbv zeta in Hs, Ht. rewrite Hs, Ht. done.
Qed.

Lemma enabling_keeps_the_mock_session_witness :
  let w := run [CallDisable; CallStart "ABC123" (Some 7%nat) (Some 8%nat) healthy]
             (boot 1000000) in
  let ticks := [(30000%N, healthy, draw); (45000%N, healthy, draw)] in
  let w' := run (CallEnable :: tick_events 1 ticks) w in
  intervals (env w) = [mkInterval 1 POLL_PERIOD 1030000 MockJob] ∧
  Forall (λ tick, POLL_PERIOD ≤ Z.of_N tick.1.1) ticks ∧
  isEnabled (svc w') = true ∧
  isRunning (svc w') = isRunning (svc w) ∧
  trace (env w') =
    trace (env w) ++ deliveries (onSignalFound (svc w)) (mock_feed (clock (env w)) ticks).
Proof.
  cbv zeta.
  assert (intervals (env (run [CallDisable;
                               CallStart "ABC123" (Some 7%nat) (Some 8%nat) healthy]
                            (boot 1000000))) =
          [mkInterval 1 POLL_PERIOD 1030000 MockJob]) as Hiv by (vm_compute; reflexivity).
  assert (Forall (λ tick : N * Net * MockDraw, POLL_PERIOD ≤ Z.of_N tick.1.1)
            [(30000%N, healthy, draw); (45000%N, healthy, draw)]) as Hticks
    by (repeat constructor; vm_compute; discriminate).
  split; [exact Hiv|]. split; [exact Hticks|].
  exact (enabling_keeps_the_mock_session
           [CallDisable; CallStart "ABC123" (Some 7%nat) (Some 8%nat) healthy] 1000000 1
           1030000 _ Hiv Hticks).
Defined.

(** ** Consecutive polls *)

(** X11: consecutive polls leave no gap.  After a cycle that delivered its
    signals, the next cycle for the same session that gets as far as the
    signals request, however much later, asks for the signals since the
    instant the earlier cycle completed. *)
Theorem next_poll_resumes_where_the_last_ended (key : string) (net net' : Net) (d : N)
  (w : World) (signals : list DatabaseSignal.t) :
  let w1 := exec (checkForNewSignals key net) w in
  let w2 := exec (elapse d) w1 in
  outcome key net w = Polled signals →
  outcome key net' w2 ≠ ResolutionFailed →
  outcome key net' w2 ≠ NoEA →
  sinces (trace (env (exec (checkForNewSignals key net') w2))) =
  sinces (trace (env w1)) ++ [clock (env w1)].
Proof.
  cbv zeta. intros Ho H1 H2.
  pose proof (cycle_watermark key net w) as Hw. cbv zeta in Hw. rewrite Ho in Hw.
  rewrite (cycle_sinces key net' (exec (elapse d) (exec (checkForNewSignals key net) w))
             (clock (env (exec (checkForNewSignals key net) w)))) by exact Hw.
  by destruct (outcome key net' _).
Qed.

Lemma next_poll_resumes_where_the_last_ended_witness :
  let w := opened "ABC123" (Some 7%nat) (Some 8%nat) (boot 1000000) in
  let w1 := exec (checkForNewSignals "ABC123" healthy) w in
  let w2 := exec (elapse 30000) w1 in
  outcome "ABC123" healthy w = Polled [buy; sell] ∧
  outcome "ABC123" failing w2 ≠ ResolutionFailed ∧
  outcome "ABC123" failing w2 ≠ NoEA ∧
  sinces (trace (env (exec (checkForNewSignals "ABC123" failing) w2))) =
  sinces (trace (env w1)) ++ [clock (env w1)].
Proof.
  cbv zeta.
  assert (outcome "ABC123" healthy
            (opened "ABC123" (Some 7%nat) (Some 8%nat) (boot 1000000)) =
          Polled [buy; sell]) as Ho by (vm_compute; reflexivity).
  assert (outcome "ABC123" failing
            (exec (elapse 30000)
               (exec (checkForNewSignals "ABC123" healthy)
                  (opened "ABC123" (Some 7%nat) (Some 8%nat) (boot 1000000)))) =
          FetchFailed) as Ho2 by (vm_compute; reflexivity).
  split; [exact Ho|]. split; [by rewrite Ho2|]. split; [by rewrite Ho2|].
  apply (next_poll_resumes_where_the_last_ended "ABC123" healthy failing 30000%N
           (opened "ABC123" (Some 7%nat) (Some 8%nat) (boot 1000000)) [buy; sell] Ho);
    by rewrite Ho2.
Defined.

(** * The query cache and the connection pool *)

(** ** The map *)

Lemma map_get_None {A} (m : list (string * A)) (k : string) :
  Db.map_get m k = None ↔ k ∉ m.*1.
Proof.
  induction m as [|[k' v] m IH]; cbn.
  - split; [intros _; apply not_elem_of_nil | done].
  - destruct (String.eqb_spec k' k) as [->|Hne].
    + split; [done | intros H; destruct H; left].
    + rewrite IH, not_elem_of_cons. split; [by intros H; split; [intros ->|] | by intros [_ H]].
Qed.

Lemma map_get_Some {A} (m : list (string * A)) (k : string) (v : A) :
  Db.map_get m k = Some v → (k, v) ∈ m.
Proof.
  induction m as [|[k' v'] m IH]; cbn; [done|].
  destruct (String.eqb_spec k' k) as [->|Hne].
  - intros [= ->]. left.
  - intros H. right. by apply IH.
Qed.

Lemma map_get_delete {A} (m : list (string * A)) (k k' : string) :
  Db.map_get (Db.map_delete m k) k' = if String.eqb k k' then None else Db.map_get m k'.
Proof.
  unfold Db.map_delete.
  induction m as [|[k0 v] m IH]; cbn.
  - by destruct (String.eqb k k').
  - destruct (String.eqb_spec k0 k) as [->|Hne]; cbn.
    + rewrite IH. by destruct (String.eqb_spec k k').
    + rewrite IH. destruct (String.eqb_spec k0 k') as [->|Hne'].
      * by rewrite (proj2 (String.eqb_neq _ _)) by done.
      * done.
Qed.

Lemma map_get_set {A} (m : list (string * A)) (k k' : string) (v : A) :
  Db.map_get (Db.map_set m k v) k' = if String.eqb k k' then Some v else Db.map_get m k'.
Proof.
  induction m as [|[k0 v0] m IH]; cbn.
  - done.
  - destruct (String.eqb_spec k0 k) as [->|Hne]; cbn.
    + by destruct (String.eqb k k').
    + rewrite IH. destruct (String.eqb_spec k0 k') as [->|Hne'].
      * by rewrite (proj2 (String.eqb_neq _ _)) by done.
      * done.
Qed.

Lemma map_set_new {A} (m : list (string * A)) (k : string) (v : A) :
  Db.map_get m k = None → Db.map_set m k v = m ++ [(k, v)].
Proof.
  induction m as [|[k0 v0] m IH]; cbn; [done|].
  destruct (String.eqb k0 k); [done|].
  intros H. by rewrite IH.
Qed.

Lemma map_set_length {A} (m : list (string * A)) (k : string) (v : A) :
  length (Db.map_set m k v) =
  match Db.map_get m k with Some _ => length m | None => S (length m) end.
Proof.
  induction m as [|[k0 v0] m IH]; cbn; [done|].
  destruct (String.eqb k0 k); cbn; [done|].
  rewrite IH. by destruct (Db.map_get m k).
Qed.

Lemma map_set_keys {A} (m : list (string * A)) (k : string) (v : A) :
  (Db.map_set m k v).*1 =
  match Db.map_get m k with Some _ => m.*1 | None => m.*1 ++ [k] end.
Proof.
  induction m as [|[k0 v0] m IH]; cbn; [done|].
  destruct (String.eqb k0 k); cbn; [done|].
  rewrite IH. by destruct (Db.map_get m k).
Qed.

Lemma map_delete_absent {A} (m : list (string * A)) (k : string) :
  Db.map_get m k = None → Db.map_delete m k = m.
Proof.
  unfold Db.map_delete.
  induction m as [|[k0 v0] m IH]; cbn; [done|].
  destruct (String.eqb k0 k); cbn; [done|].
  intros H. by rewrite IH.
Qed.

Lemma filter_keys_sublist {A} (P : string * A → bool) (m : list (string * A)) :
  sublist (List.filter P m).*1 m.*1.
Proof.
  induction m as [|e m IH]; cbn; [done|].
  destruct (P e); cbn; by constructor.
Qed.

Lemma filter_length_le {A} (P : A → bool) (m : list A) :
  (length (List.filter P m) ≤ length m)%nat.
Proof. induction m as [|e m IH]; cbn; [done|]. destruct (P e); cbn; lia. Qed.

(** With distinct keys, filtering the entries filters the lookups. *)
Lemma map_get_filter {A} (P : string * A → bool) (m : list (string * A)) (k : string) :
  NoDup m.*1 →
  Db.map_get (List.filter P m) k =
  match Db.map_get m k with
  | Some v => if P (k, v) then Some v else None
  | None => None
  end.
Proof.
  induction m as [|[k0 v0] m IH]; cbn; [done|].
  intros [Hk0 Hm]%NoDup_cons.
  destruct (String.eqb_spec k0 k) as [->|Hne].
  - destruct (P (k, v0)); cbn.
    + by rewrite String.eqb_refl.
    + apply map_get_None. intros Hin. apply Hk0.
      eapply elem_of_sublist; [done | apply filter_keys_sublist].
  - destruct (P (k0, v0)); cbn; [|by apply IH].
    rewrite (proj2 (String.eqb_neq _ _)) by done. by apply IH.
Qed.

(** The head of an over-full map after setting a key that was not there. *)
Lemma setCachedData_unfold {A} (key : string) (data : A) (now : Z)
  (c : list (string * Db.CacheEntry A)) :
  Db.setCachedData key data now c =
  let c1 := Db.map_set c key (data, now) in
  if (Db.CACHE_LIMIT <? length c1)%nat
  then match c1 with
       | (String ch rest, _) :: _ => Db.map_delete c1 (String ch rest)
       | _ => c1
       end
  else c1.
Proof. done. Qed.

Lemma setCachedData_get {A} (key : string) (data : A) (now : Z)
  (c : list (string * Db.CacheEntry A)) :
  (length c ≤ Db.CACHE_LIMIT)%nat →
  Db.map_get (Db.setCachedData key data now c) key = Some (data, now).
Proof.
  intros Hlen. rewrite setCachedData_unfold. cbv zeta.
  assert (Hget : Db.map_get (Db.map_set c key (data, now)) key = Some (data, now)).
  { by rewrite map_get_set, String.eqb_refl. }
  destruct (Nat.ltb_spec Db.CACHE_LIMIT (length (Db.map_set c key (data, now))))
    as [Hover|_]; [|done].
  rewrite map_set_length in Hover.
  destruct (Db.map_get c key) eqn:Hc; [lia|].
  rewrite map_set_new in * by done.
  destruct c as [|[f e] c]; [cbn in Hover; unfold Db.CACHE_LIMIT in Hover; lia|].
  cbn [app]. destruct f as [|ch rest]; [done|].
  rewrite map_get_delete.
  destruct (String.eqb_spec (String ch rest) key) as [<-|Hne]; [|done].
  cbn [Db.map_get] in Hc. by rewrite String.eqb_refl in Hc.
Qed.

(** ** Caches the program can reach *)

Lemma cache_ok_filter {A} (P : string * Db.CacheEntry A → bool) c :
  NoDup c.*1 → NoDup (List.filter P c).*1.
Proof. intros H. eapply sublist_NoDup; [done | apply filter_keys_sublist]. Qed.

Lemma cache_ok_set {A} (key : string) (e : Db.CacheEntry A) c :
  NoDup c.*1 → NoDup (Db.map_set c key e).*1.
Proof.
  intros H. rewrite map_set_keys.
  destruct (Db.map_get c key) eqn:Hc; [done|].
  apply NoDup_app. split; [done|]. split; [|apply NoDup_singleton].
  intros x Hx ->%list_elem_of_singleton. by apply map_get_None in Hc.
Qed.

Lemma cache_ok_setCachedData {A} (key : string) (data : A) (now : Z) c :
  NoDup c.*1 → NoDup (Db.setCachedData key data now c).*1.
Proof.
  intros H. rewrite setCachedData_unfold. cbv zeta.
  pose proof (cache_ok_set key (data, now) c H) as H1.
  destruct (_ <? _)%nat; [|done].
  destruct (Db.map_set c key (data, now)) as [|[[|ch rest] e] c1] eqn:E; try done.
  by apply cache_ok_filter.
Qed.

Lemma cache_ok_step {A} (op : Db.CacheOp A) c :
  NoDup c.*1 → NoDup (Db.apply_op c op).*1.
Proof.
  intros H. destruct op as [key ttl now|key data now|now]; cbn.
  - unfold Db.getCachedData. destruct (Db.map_get c key) as [e|]; [|done].
    destruct (_ <? _); [done|]. by apply cache_ok_filter.
  - by apply cache_ok_setCachedData.
  - by apply cache_ok_filter.
Qed.

Lemma cache_ok_run {A} (ops : list (Db.CacheOp A)) c :
  NoDup c.*1 → NoDup (fold_left Db.apply_op ops c).*1.
Proof.
  revert c. induction ops as [|op ops IH]; intros c H; cbn; [done|].
  by apply IH, cache_ok_step.
Qed.

Lemma cache_ok_after {A} (ops : list (Db.CacheOp A)) : NoDup (Db.cache_after ops).*1.
Proof. apply cache_ok_run. apply NoDup_nil_2. Qed.

Lemma cache_after_snoc {A} (ops : list (Db.CacheOp A)) (op : Db.CacheOp A) :
  Db.cache_after (ops ++ [op]) = Db.apply_op (Db.cache_after ops) op.
Proof. unfold Db.cache_after. by rewrite fold_left_app. Qed.



(** X13: eviction is first in, first out.  When a key that is not in the
    cache is stored in a cache of exactly 1000 entries, the entry that was
    inserted first is removed and the others keep their order, however
    recently the first one was read or overwritten; if the first key is the
    empty string nothing is removed and the cache grows to 1001 entries. *)
Theorem full_cache_evicts_oldest_insertion {A} (ops : list (Db.CacheOp A))
  (key : string) (data : A) (now : Z) (f : string) (e : Db.CacheEntry A) :
  let c := Db.cache_after ops in
  length c = Db.CACHE_LIMIT →
  Db.map_get c key = None →
  head c = Some (f, e) →
  Db.setCachedData key data now c =
  if String.eqb f EmptyString then c ++ [(key, (data, now))]
  else tail c ++ [(key, (data, now))].
Proof.
  intros c Hlen Hkey Hhead.
  pose proof (cache_ok_after ops) as Hok. fold c in Hok.
  rewrite setCachedData_unfold. cbv zeta.
  rewrite (map_set_new c key _ Hkey).
  rewrite length_app, Hlen. cbn [length].
  replace (Db.CACHE_LIMIT <? Db.CACHE_LIMIT + 1)%nat with true
    by (symmetry; apply Nat.ltb_lt; lia).
  destruct c as [|[f' e'] rest]; [done|].
  injection Hhead as -> ->. cbn [app tail].
  destruct f as [|ch s]; [done|].
  replace (String.eqb (String ch s) EmptyString) with false by done.
  unfold Db.map_delete. cbn [List.filter fst]. rewrite String.eqb_refl. cbn [negb].
  rewrite fmap_cons in Hok. apply NoDup_cons in Hok as [Hf _].
  fold (Db.map_delete (rest ++ [(key, (data, now))]) (String ch s)).
  apply map_delete_absent, map_get_None.
  rewrite fmap_app, not_elem_of_app. split; [done|].
  cbn. rewrite list_elem_of_singleton. intros <-.
  cbn [Db.map_get] in Hkey. by rewrite String.eqb_refl in Hkey.
Qed.

Lemma full_cache_evicts_oldest_insertion_witness :
  let c := Db.cache_after (DbScenario.fill 1000) in
  length c = Db.CACHE_LIMIT ∧
  Db.map_get c "new" = None ∧
  head c = Some (DbScenario.name 0, (0%nat, 0)) ∧
  Db.setCachedData "new" 7%nat 5000 c = tail c ++ [("new", (7%nat, 5000))].
Proof.
  assert (H1 : length (Db.cache_after (DbScenario.fill 1000)) = Db.CACHE_LIMIT)
    by (vm_compute; reflexivity).
  assert (H2 : Db.map_get (Db.cache_after (DbScenario.fill 1000)) "new" = None)
    by (vm_compute; reflexivity).
  assert (H3 : head (Db.cache_after (DbScenario.fill 1000))
               = Some (DbScenario.name 0, (0%nat, 0)))
    by (vm_compute; reflexivity).
  split; [exact H1|]. split; [exact H2|]. split; [exact H3|].
  pose proof (full_cache_evicts_oldest_insertion (DbScenario.fill 1000) "new" 7%nat 5000
                (DbScenario.name 0) (0%nat, 0) H1 H2 H3) as H.
  rewrite H. reflexivity.
Defined.

Lemma within_limit_step {A} (op : Db.CacheOp A) c :
  Db.sets_key EmptyString op = false →
  (length c ≤ Db.CACHE_LIMIT)%nat ∧ EmptyString ∉ c.*1 →
  (length (Db.apply_op c op) ≤ Db.CACHE_LIMIT)%nat ∧ EmptyString ∉ (Db.apply_op c op).*1.
Proof.
  intros Hop [Hlen Hkeys].
  assert (Hfilter : ∀ P, (length (List.filter P c) ≤ Db.CACHE_LIMIT)%nat ∧
                         EmptyString ∉ (List.filter P c).*1).
  { intros P. split.
    - pose proof (filter_length_le P c). lia.
    - intros Hin. apply Hkeys. eapply elem_of_sublist; [done | apply filter_keys_sublist]. }
  destruct op as [key ttl now|key data now|now]; cbn.
  - unfold Db.getCachedData. destruct (Db.map_get c key) as [e|]; [|done].
    destruct (_ <? _); [done|]. apply Hfilter.
  - cbn in Hop. apply String.eqb_neq in Hop.
    rewrite setCachedData_unfold. cbv zeta.
    assert (Hk1 : EmptyString ∉ (Db.map_set c key (data, now)).*1).
    { rewrite map_set_keys. destruct (Db.map_get c key); [done|].
      rewrite not_elem_of_app, list_elem_of_singleton. split; [done | congruence]. }
    assert (Hl1 : (length (Db.map_set c key (data, now)) ≤ S Db.CACHE_LIMIT)%nat).
    { rewrite map_set_length. destruct (Db.map_get c key); lia. }
    destruct (Nat.ltb_spec Db.CACHE_LIMIT (length (Db.map_set c key (data, now))))
      as [Hover|Hfits]; [|done].
    destruct (Db.map_set c key (data, now)) as [|[f e] c1];
      [cbn in Hover; unfold Db.CACHE_LIMIT in Hover; lia|].
    destruct f as [|ch rest]; [exfalso; apply Hk1; left|].
    unfold Db.map_delete. cbn [List.filter fst]. rewrite String.eqb_refl. cbn [negb].
    split.
    + pose proof (filter_length_le (λ e : string * Db.CacheEntry A,
                                      negb (String.eqb e.1 (String ch rest))) c1).
      cbn [length] in Hl1. lia.
    + intros Hin. apply Hk1. right.
      eapply elem_of_sublist; [done | apply filter_keys_sublist].
  - apply Hfilter.
Qed.

(** X14: the limit of 1000 entries holds as long as nothing is ever stored
    under the empty string: after any sequence of lookups, stores and
    cleanups from the empty cache, the cache has at most 1000 entries. *)
Theorem cache_stays_within_limit {A} (ops : list (Db.CacheOp A)) :
  Forall (λ op, Db.sets_key EmptyString op = false) ops →
  (length (Db.cache_after ops) ≤ Db.CACHE_LIMIT)%nat.
Proof.
  intros Hops.
  enough (H : (length (Db.cache_after ops) ≤ Db.CACHE_LIMIT)%nat ∧
              EmptyString ∉ (Db.cache_after ops).*1) by apply H.
  induction ops as [|op ops IH] using rev_ind.
  - split; [cbn; unfold Db.CACHE_LIMIT; lia | apply not_elem_of_nil].
  - apply Forall_app in Hops as [Hops Hop]. apply Forall_inv in Hop.
    rewrite cache_after_snoc. apply within_limit_step; [exact Hop|]. by apply IH.
Qed.

Lemma cache_stays_within_limit_witness :
  Forall (λ op, Db.sets_key EmptyString op = false) (DbScenario.fill 1001) ∧
  (length (Db.cache_after (DbScenario.fill 1001)) ≤ Db.CACHE_LIMIT)%nat.
Proof.
  assert (H : Forall (λ op, Db.sets_key EmptyString op = false) (DbScenario.fill 1001)).
  { apply Forall_fmap, Forall_forall. intros i _. reflexivity. }
  split; [exact H|].
  apply (cache_stays_within_limit (DbScenario.fill 1001) H).
Defined.

(** X15: the periodic cleanup is invisible to lookups with a TTL of up to
    60001 ms (the default is 30000): whatever [getCachedData] would have
    returned for a key had the cleanup not run before it, it returns after
    the cleanup. *)
Theorem cleanup_is_invisible_to_lookups {A} (ops : list (Db.CacheOp A))
  (key : string) (ttl swept now : Z) :
  ttl ≤ Db.CACHE_TTL * 2 + 1 →
  swept ≤ now →
  (Db.getCachedData key ttl now (Db.cleanup swept (Db.cache_after ops))).1 =
  (Db.getCachedData key ttl now (Db.cache_after ops)).1.
Proof.
  intros Httl Hswept.
  pose proof (cache_ok_after ops) as Hok.
  unfold Db.getCachedData, Db.cleanup.
  rewrite (map_get_filter _ _ key Hok).
  destruct (Db.map_get (Db.cache_after ops) key) as [[d ts]|]; [|done].
  cbn [fst snd].
  destruct (Z.ltb_spec (Db.CACHE_TTL * 2) (swept - ts)) as [Hold|Hyoung]; cbn [negb].
  - destruct (Z.ltb_spec (now - ts) ttl); [lia | done].
  - cbn [fst snd]. by destruct (now - ts <? ttl).
Qed.

Lemma cleanup_is_invisible_to_lookups_witness :
  Db.CACHE_TTL ≤ Db.CACHE_TTL * 2 + 1 ∧ 70000 ≤ 70001 ∧
  (Db.getCachedData (DbScenario.name 1) Db.CACHE_TTL 70001
     (Db.cleanup 70000 (Db.cache_after (DbScenario.fill 3)))).1 =
  (Db.getCachedData (DbScenario.name 1) Db.CACHE_TTL 70001
     (Db.cache_after (DbScenario.fill 3))).1.
Proof.
  split; [unfold Db.CACHE_TTL; lia|]. split; [lia|].
  apply (cleanup_is_invisible_to_lookups (DbScenario.fill 3)); unfold Db.CACHE_TTL; lia.
Defined.

Lemma setCachedData_get_own {A} (key : string) (data : A) (now : Z)
  (c : list (string * Db.CacheEntry A)) :
  Db.map_get (Db.setCachedData key data now c) key = None ∨
  Db.map_get (Db.setCachedData key data now c) key = Some (data, now).
Proof.
  rewrite setCachedData_unfold. cbv zeta.
  assert (Hget : Db.map_get (Db.map_set c key (data, now)) key = Some (data, now)).
  { by rewrite map_get_set, String.eqb_refl. }
  destruct (_ <? _)%nat; [|by right].
  destruct (Db.map_set c key (data, now)) as [|[[|ch rest] e] c1]; [by right..|].
  rewrite map_get_delete. destruct (String.eqb _ key); [by left | by right].
Qed.

Lemma setCachedData_get_other {A} (key key' : string) (data : A) (now : Z)
  (c : list (string * Db.CacheEntry A)) :
  key ≠ key' →
  Db.map_get (Db.setCachedData key data now c) key' = None ∨
  Db.map_get (Db.setCachedData key data now c) key' = Db.map_get c key'.
Proof.
  intros Hne. rewrite setCachedData_unfold. cbv zeta.
  assert (Hget : Db.map_get (Db.map_set c key (data, now)) key' = Db.map_get c key').
  { by rewrite map_get_set, (proj2 (String.eqb_neq _ _)). }
  destruct (_ <? _)%nat; [|by right].
  destruct (Db.map_set c key (data, now)) as [|[[|ch rest] e] c1]; [by right..|].
  rewrite map_get_delete. destruct (String.eqb _ key'); [by left | by right].
Qed.

Lemma latest_store_step {A} (op : Db.CacheOp A) (key : string) (e : Db.CacheEntry A) c :
  Db.sets_key key op = false →
  NoDup c.*1 →
  Db.map_get c key = None ∨ Db.map_get c key = Some e →
  Db.map_get (Db.apply_op c op) key = None ∨ Db.map_get (Db.apply_op c op) key = Some e.
Proof.
  intros Hop Hok H.
  destruct op as [k ttl now|k data now|now]; cbn.
  - unfold Db.getCachedData. destruct (Db.map_get c k) as [e'|]; [|done].
    destruct (_ <? _); [done|]. cbn [snd].
    rewrite map_get_delete. destruct (String.eqb k key); [by left | done].
  - cbn in Hop. apply String.eqb_neq in Hop.
    destruct (setCachedData_get_other k key data now c Hop) as [->| ->]; [by left | done].
  - unfold Db.cleanup. rewrite (map_get_filter _ _ key Hok).
    destruct H as [->| ->]; [by left|].
    destruct (negb _); [by right | by left].
Qed.

Lemma latest_store_run {A} (ops : list (Db.CacheOp A)) (key : string)
  (e : Db.CacheEntry A) c :
  Forall (λ op, Db.sets_key key op = false) ops →
  NoDup c.*1 →
  Db.map_get c key = None ∨ Db.map_get c key = Some e →
  Db.map_get (fold_left Db.apply_op ops c) key = None ∨
  Db.map_get (fold_left Db.apply_op ops c) key = Some e.
Proof.
  revert c. induction ops as [|op ops IH]; intros c Hops Hok H; cbn; [done|].
  apply Forall_cons in Hops as [Hop Hops].
  apply IH; [done | by apply cache_ok_step | by apply latest_store_step].
Qed.

(** X16: the cache never serves data that has been overwritten, nor data
    past its TTL.  After [setCachedData(key, data)] at instant [now], and
    until the next store under [key], whatever else is looked up, stored or
    cleaned up in between, a lookup of [key] returns either null or [data],
    and [data] only while less than [ttl] milliseconds have passed since
    [now]. *)
Theorem lookup_returns_latest_store_or_null {A} (ops ops' : list (Db.CacheOp A))
  (key : string) (data : A) (now ttl later : Z) (d : A) :
  Forall (λ op, Db.sets_key key op = false) ops' →
  (Db.getCachedData key ttl later
     (Db.cache_after (ops ++ Db.OpSet key data now :: ops'))).1 = Some d →
  d = data ∧ later - now < ttl.
Proof.
  intros Hops' Hget.
  unfold Db.cache_after in Hget. rewrite fold_left_app in Hget. cbn [fold_left] in Hget.
  fold (Db.cache_after ops) in Hget.
  pose proof (latest_store_run ops' key (data, now)
                (Db.apply_op (Db.cache_after ops) (Db.OpSet key data now)) Hops'
                (cache_ok_step _ _ (cache_ok_after ops))
                (setCachedData_get_own key data now (Db.cache_after ops))) as H.
  unfold Db.getCachedData in Hget.
  destruct H as [H|H]; rewrite H in Hget; [done|].
  cbn [fst snd] in Hget.
  destruct (Z.ltb_spec (later - now) ttl); [|done].
  by injection Hget as <-.
Qed.

Lemma lookup_returns_latest_store_or_null_witness :
  let ops' := [Db.OpSet "other" 2%nat 10; Db.OpCleanup 20; Db.OpGet "ea" 30000 25] in
  Forall (λ op, Db.sets_key "ea" op = false) ops' ∧
  (Db.getCachedData "ea" 30000 40
     (Db.cache_after ([Db.OpSet "ea" 1%nat 0] ++ Db.OpSet "ea" 7%nat 5 :: ops'))).1
  = Some 7%nat ∧
  7%nat = 7%nat ∧ 40 - 5 < 30000.
Proof.
  assert (H1 : Forall (λ op, Db.sets_key "ea" op = false)
                 [Db.OpSet "other" 2%nat 10; Db.OpCleanup 20; Db.OpGet "ea" 30000 25]).
  { repeat constructor. }
  assert (H2 : (Db.getCachedData "ea" 30000 40
                  (Db.cache_after ([Db.OpSet "ea" 1%nat 0] ++ Db.OpSet "ea" 7%nat 5 ::
                     [Db.OpSet "other" 2%nat 10; Db.OpCleanup 20; Db.OpGet "ea" 30000 25]))).1
               = Some 7%nat).
  { vm_compute. reflexivity. }
  split; [exact H1|]. split; [exact H2|].
  exact (lookup_returns_latest_store_or_null _ _ _ _ _ _ _ _ H1 H2).
Defined.

(** ** The pool and the connections *)

Lemma executeQuery_log {Row} query params o (q : Db.QueryOutcome Row) s :
  let s' := (Db.executeQuery query params o q s).2 in
  ∃ pre post,
    Db.db_log s' = Db.db_log s ++ pre ++ post ∧
    (Db.db_next s ≤ Db.db_next s')%positive ∧
    ((pre = [] ∨ pre = [Db.DriverImported]) ∧
       Db.pool s' = Db.pool s ∧ Db.poolInitPromise s' = Db.poolInitPromise s
     ∨ Db.pool s = None ∧ Db.poolInitPromise s = None ∧
       ∃ p, pre = [Db.DriverImported; Db.PoolCreated p] ∧
            Db.pool s' = Some p ∧ Db.poolInitPromise s' = Some p ∧
            (Db.db_next s ≤ p < Db.db_next s')%positive) ∧
    (post = [] ∨
     ∃ p c, post = [Db.Acquired p c; Db.Executed c query params; Db.Released c] ∧
            (Db.db_next s ≤ c < Db.db_next s')%positive).
Proof.
  destruct s as [c p pr n t l]. db_cases.
  all: db_shape.
  all: (split; [lia|]).
  all: split; [naive_solver lia | naive_solver lia].
Qed.

Lemma closePool_log {Row} (ended : bool) (s : Db.DbState Row) :
  let s' := Db.closePool ended s in
  Db.db_next s' = Db.db_next s ∧
  (s' = s ∨
   ∃ p, Db.pool s = Some p ∧ Db.db_log s' = Db.db_log s ++ [Db.PoolEnded p] ∧
        Db.pool s' = None ∧ Db.poolInitPromise s' = None).
Proof.
  destruct s as [c p pr n t l]. db_cases; naive_solver.
Qed.

Lemma db_run_snoc {Row} (es : list (Db.DbEvent Row)) (e : Db.DbEvent Row) s :
  Db.db_run (es ++ [e]) s = Db.db_step (Db.db_run es s) e.
Proof. unfold Db.db_run. by rewrite fold_left_app. Qed.

Lemma connections_step {Row} (s : Db.DbState Row) (e : Db.DbEvent Row) :
  Db.released (Db.db_log s) = Db.acquired (Db.db_log s) ∧
  Forall (λ c, (c < Db.db_next s)%positive) (Db.acquired (Db.db_log s)) ∧
  NoDup (Db.acquired (Db.db_log s)) →
  let s' := Db.db_step s e in
  Db.released (Db.db_log s') = Db.acquired (Db.db_log s') ∧
  Forall (λ c, (c < Db.db_next s')%positive) (Db.acquired (Db.db_log s')) ∧
  NoDup (Db.acquired (Db.db_log s')).
Proof.
  intros (Hrel & Hbound & Hnodup).
  destruct e as [query params o q|ended|ms|]; cbn; [| |done..].
  - destruct (executeQuery_log query params o q s) as (pre & post & -> & Hn & Hpre & Hpost).
    unfold Db.released, Db.acquired in *. rewrite !omap_app, Hrel.
    assert (Hb : Forall (λ c, (c < Db.db_next (Db.executeQuery query params o q s).2)%positive)
                   (omap (λ e, match e with Db.Acquired _ c => Some c | _ => None end)
                      (Db.db_log s))).
    { eapply Forall_impl; [exact Hbound|]. cbn. intros; lia. }
    assert (omap (λ e, match e with Db.Released c => Some c | _ => None end) pre = [] ∧
            omap (λ e, match e with Db.Acquired _ c => Some c | _ => None end) pre = [])
      as [-> ->].
    { destruct Hpre as [[[->| ->] _]|(_ & _ & p & -> & _)]; by cbn. }
    destruct Hpost as [->|(p & c & -> & Hc)]; cbn.
    + by rewrite !app_nil_r.
    + split; [done|]. split.
      * apply Forall_app. split; [done|]. apply Forall_singleton. lia.
      * apply NoDup_app. split; [done|]. split; [|apply NoDup_singleton].
        intros x Hx ->%list_elem_of_singleton.
        rewrite Forall_forall in Hbound. specialize (Hbound _ Hx). cbn in Hbound. lia.
  - destruct (closePool_log ended s) as (Hn & [->|(p & _ & -> & _)]); [done|].
    unfold Db.released, Db.acquired in *. rewrite !omap_app. cbn.
    rewrite !app_nil_r, Hn. done.
Qed.


Lemma pools_step {Row} (s : Db.DbState Row) (e : Db.DbEvent Row) :
  Db.created (Db.db_log s) = Db.ended (Db.db_log s) ++ option_list (Db.pool s) ∧
  Db.poolInitPromise s = Db.pool s →
  let s' := Db.db_step s e in
  Db.created (Db.db_log s') = Db.ended (Db.db_log s') ++ option_list (Db.pool s') ∧
  Db.poolInitPromise s' = Db.pool s'.
Proof.
  intros [Hlog Hpromise].
  destruct e as [query params o q|ended|ms|]; cbn; [| |done..].
  - destruct (executeQuery_log query params o q s) as (pre & post & -> & _ & Hpre & Hpost).
    unfold Db.created, Db.ended in *. rewrite !omap_app, Hlog.
    assert (omap (λ e, match e with Db.PoolCreated p => Some p | _ => None end) post = [] ∧
            omap (λ e, match e with Db.PoolEnded p => Some p | _ => None end) post = [])
      as [-> ->].
    { destruct Hpost as [->|(p & c & -> & _)]; by cbn. }
    destruct Hpre as [[[->| ->] (-> & ->)]|(Hnone & _ & p & -> & -> & -> & _)]; cbn.
    + by rewrite !app_nil_r.
    + by rewrite !app_nil_r.
    + rewrite Hnone. cbn. by rewrite !app_nil_r.
  - destruct (closePool_log ended s) as (_ & [->|(p & Hp & -> & -> & ->)]); [done|].
    unfold Db.created, Db.ended in *. rewrite !omap_app, Hlog, Hp. cbn.
    by rewrite !app_nil_r.
Qed.

(** X18: there is at most one live pool.  After every call in every run
    whose calls do not overlap, the pools created so far are the pools ended
    so far, in the same order, followed by the pool the module holds, if it
    holds one; and the initialisation promise is set exactly when the pool
    is.  So [getPool] creates a pool only when none is held, however often
    creation failed before, a failed [closePool] keeps the pool, and a pool
    is never dropped without being ended. *)
Theorem pools_are_ended_or_held {Row} (es : list (Db.DbEvent Row)) (t0 : Z) :
  let s := Db.db_run es (Db.fresh t0) in
  Db.created (Db.db_log s) = Db.ended (Db.db_log s) ++ option_list (Db.pool s) ∧
  Db.poolInitPromise s = Db.pool s.
Proof.
  cbv zeta. induction es as [|e es IH] using rev_ind.
  - done.
  - rewrite db_run_snoc. by apply pools_step.
Qed.

(** ** Queries and the cache *)

Lemma getCachedData_length {A} (key : string) (ttl now : Z)
  (c : list (string * Db.CacheEntry A)) :
  (length (Db.getCachedData key ttl now c).2 ≤ length c)%nat.
Proof.
  unfold Db.getCachedData. destruct (Db.map_get c key) as [e|]; [|done].
  destruct (_ <? _); [done|]. apply filter_length_le.
Qed.

Lemma getCachedData_keeps {A} (key : string) (ttl now : Z)
  (c : list (string * Db.CacheEntry A)) (k : string) (e : Db.CacheEntry A) :
  Db.map_get (Db.getCachedData key ttl now c).2 k = Some e → Db.map_get c k = Some e.
Proof.
  unfold Db.getCachedData. destruct (Db.map_get c key) as [e'|]; [|done].
  destruct (_ <? _); [done|]. cbn [snd]. rewrite map_get_delete.
  by destruct (String.eqb key k).
Qed.

Lemma executeQuery_miss_success {Row} query params o (q : Db.QueryOutcome Row) s key result :
  Db.caching o = Some key →
  (Db.getCachedData key (Db.cacheTTL o) (Db.db_clock s) (Db.cache s)).1 = None →
  (Db.executeQuery query params o q s).1 = Normal result →
  let now := Db.db_clock s + Z.of_N (Db.took q) in
  let s' := (Db.executeQuery query params o q s).2 in
  Db.db_clock s' = now ∧
  Db.cache s' =
    Db.setCachedData key result now
      (Db.getCachedData key (Db.cacheTTL o) (Db.db_clock s) (Db.cache s)).2.
Proof.
  intros Hkey Hmiss Hres. destruct s as [c p pr n t l].
  revert Hmiss Hres. db_cases; cbn; intros; simplify_eq; done.
Qed.



(** X20: only a successful query with caching on writes to the cache.  If
    [executeQuery] runs without the cache option or without a cache key, or
    if it throws (no pool, no connection, or the query fails), then every
    entry the cache holds afterwards was there before, unchanged: nothing is
    stored and nothing is overwritten. *)
Theorem uncached_or_failed_query_stores_nothing {Row} query params o
  (q : Db.QueryOutcome Row) s :
  let r := Db.executeQuery query params o q s in
  Db.caching o = None ∨ (∃ error, r.1 = Abrupt error) →
  ∀ key e, Db.map_get (Db.cache r.2) key = Some e → Db.map_get (Db.cache s) key = Some e.
Proof.
  intros r H key e. subst r. revert H.
  destruct s as [c p pr n t l].
  db_cases; cbn; intros [?|[? ?]] Hget; simplify_eq; try done.
  all: match goal with
       | H : Db.getCachedData ?k ?ttl ?now ?c = (_, ?c1) |- _ =>
           change c1 with (Db.getCachedData k ttl now c).2 in Hget
             || (replace c1 with (Db.getCachedData k ttl now c).2 in Hget by (by rewrite H))
       end.
  all: by eapply getCachedData_keeps.
Qed.

Lemma uncached_or_failed_query_stores_nothing_witness :
  let o := Db.mkQueryOptions true 60000 (Some "signals:ea7") in
  let q := Db.mkQueryOutcome Db.PoolReady None (Abrupt "ER_PARSE_ERROR") 40 in
  let s := Db.fresh (Row:=string) 1000 in
  (∃ error, (Db.executeQuery "SELEC" [] o q s).1 = Abrupt error) ∧
  ∀ key e, Db.map_get (Db.cache (Db.executeQuery "SELEC" [] o q s).2) key = Some e →
           Db.map_get (Db.cache s) key = Some e.
Proof.
  cbv zeta.
  assert (H : ∃ error,
            (Db.executeQuery "SELEC" []
               (Db.mkQueryOptions true 60000 (Some "signals:ea7"))
               (Db.mkQueryOutcome Db.PoolReady None (Abrupt "ER_PARSE_ERROR") 40)
               (Db.fresh (Row:=string) 1000)).1 = Abrupt error)
    by (by exists "ER_PARSE_ERROR").
  split; [exact H|].
  apply (uncached_or_failed_query_stores_nothing "SELEC" [] _ _ _ (or_intror H)).
Defined.

(** ** Overlapping calls of [getPool] *)

Lemma pool_run_snoc (es : list Db.PoolEvent) (e : Db.PoolEvent) (s : Db.Pooling) :
  Db.pool_run (es ++ [e]) s = Db.pool_step (Db.pool_run es s) e.
Proof. unfold Db.pool_run. by rewrite fold_left_app. Qed.

Lemma one_initialisation_step (s : Db.Pooling) (e : Db.PoolEvent) :
  Db.is_close e = false →
  Db.ending s = [] ∧
  match Db.the_pool s with
  | Some p =>
      Db.created (Db.pool_log s) = [p] ∧ Db.initialising s = [] ∧
      (∀ promise p', (promise, p') ∈ Db.fulfilled s → p' = p) ∧
      (∀ p', Db.Ready p' ∈ Db.answers s → p' = p)
  | None =>
      Db.created (Db.pool_log s) = [] ∧ Db.fulfilled s = [] ∧
      (∀ p', Db.Ready p' ∉ Db.answers s) ∧
      (Db.initialising s = [] ∧ Db.the_promise s = None ∨
       ∃ promise, Db.initialising s = [promise] ∧ Db.the_promise s = Some promise)
  end →
  let s' := Db.pool_step s e in
  Db.ending s' = [] ∧
  match Db.the_pool s' with
  | Some p =>
      Db.created (Db.pool_log s') = [p] ∧ Db.initialising s' = [] ∧
      (∀ promise p', (promise, p') ∈ Db.fulfilled s' → p' = p) ∧
      (∀ p', Db.Ready p' ∈ Db.answers s' → p' = p)
  | None =>
      Db.created (Db.pool_log s') = [] ∧ Db.fulfilled s' = [] ∧
      (∀ p', Db.Ready p' ∉ Db.answers s') ∧
      (Db.initialising s' = [] ∧ Db.the_promise s' = None ∨
       ∃ promise, Db.initialising s' = [promise] ∧ Db.the_promise s' = Some promise)
  end.
Proof.
  intros He [Hending H].
  destruct s as [pool promise init ending ful ans n log]. cbn in *. subst ending.
  destruct e as [|pr i| |p ok]; [| |done|by cbn].
  - (* a call of getPool *)
    cbn. unfold Db.getPool_enter. cbn.
    destruct pool as [p|]; cbn.
    + destruct H as (Hc & Hi & Hf & Ha). repeat split; try done.
      intros p' [Hin|Heq%list_elem_of_singleton]%elem_of_app; [by apply Ha | congruence].
    + destruct H as (Hc & Hf & Ha & Hi).
      destruct Hi as [[-> ->]|(pr & -> & ->)]; cbn.
      * repeat split; try done.
        -- intros p' [Hin|Heq%list_elem_of_singleton]%elem_of_app; [by eapply Ha | done].
        -- right. by eexists.
      * repeat split; try done.
        -- intros p' [Hin|Heq%list_elem_of_singleton]%elem_of_app; [by eapply Ha | done].
        -- right. by eexists.
  - (* an initialisation settles *)
    cbn. unfold Db.init_settles. cbn.
    destruct pool as [p|]; cbn.
    + destruct H as (Hc & -> & Hf & Ha). by cbn.
    + destruct H as (Hc & -> & Ha & Hi).
      destruct Hi as [[-> ->]|(pr' & -> & ->)]; cbn;
        [repeat split; try done; by left|].
      destruct (Pos.eqb_spec pr pr') as [->|Hne]; cbn.
      * unfold Db.remove_id. cbn. rewrite Pos.eqb_refl. cbn.
        destruct i as [error|error|]; cbn.
        -- repeat split; try done. by left.
        -- repeat split; try done.
           ++ unfold Db.created in *. by rewrite omap_app, Hc.
           ++ by left.
        -- repeat split; try done.
           ++ unfold Db.created in *. by rewrite omap_app, Hc.
           ++ intros promise p' Hin%list_elem_of_singleton. congruence.
           ++ intros p' Hin. by apply Ha in Hin.
      * repeat split; try done. right. by eexists.
Qed.

(** X21: overlapping calls of [getPool] share one initialisation.  Split
    [getPool] at its await and let calls and settlements interleave in any
    order; as long as [closePool] is not called, at most one initialisation
    is in flight, at most one pool is ever created (a failed initialisation
    can be followed by another), and every pool a caller receives, at once
    or through the promise it was handed, is the pool the module holds. *)
Theorem overlapping_getPool_calls_share_one_pool (es : list Db.PoolEvent) :
  Forall (λ e, Db.is_close e = false) es →
  let s := Db.pool_run es Db.idle in
  (length (Db.created (Db.pool_log s)) ≤ 1)%nat ∧
  (length (Db.initialising s) ≤ 1)%nat ∧
  (∀ p, Db.Ready p ∈ Db.answers s → Db.the_pool s = Some p) ∧
  (∀ promise p, (promise, p) ∈ Db.fulfilled s → Db.the_pool s = Some p).
Proof.
  intros Hes.
  enough (H : Db.ending (Db.pool_run es Db.idle) = [] ∧
    match Db.the_pool (Db.pool_run es Db.idle) with
    | Some p =>
        Db.created (Db.pool_log (Db.pool_run es Db.idle)) = [p] ∧
        Db.initialising (Db.pool_run es Db.idle) = [] ∧
        (∀ promise p', (promise, p') ∈ Db.fulfilled (Db.pool_run es Db.idle) → p' = p) ∧
        (∀ p', Db.Ready p' ∈ Db.answers (Db.pool_run es Db.idle) → p' = p)
    | None =>
        Db.created (Db.pool_log (Db.pool_run es Db.idle)) = [] ∧
        Db.fulfilled (Db.pool_run es Db.idle) = [] ∧
        (∀ p', Db.Ready p' ∉ Db.answers (Db.pool_run es Db.idle)) ∧
        (Db.initialising (Db.pool_run es Db.idle) = [] ∧
         Db.the_promise (Db.pool_run es Db.idle) = None ∨
         ∃ promise, Db.initialising (Db.pool_run es Db.idle) = [promise] ∧
                    Db.the_promise (Db.pool_run es Db.idle) = Some promise)
    end).
  { cbv zeta. destruct H as [_ H].
    destruct (Db.the_pool (Db.pool_run es Db.idle)) as [p|].
    - destruct H as (-> & -> & Hf & Ha). cbn. repeat split; try lia.
      + intros p' Hin. f_equal. symmetry. by apply Ha.
      + intros promise p' Hin. f_equal. symmetry. by eapply Hf.
    - destruct H as (-> & -> & Ha & Hi). cbn. repeat split; try lia.
      + destruct Hi as [[-> _]|(pr & -> & _)]; cbn; lia.
      + intros p' Hin. by apply Ha in Hin.
      + intros promise p' Hin. by apply elem_of_nil in Hin. }
  induction es as [|e es IH] using rev_ind.
  - cbn. repeat split; try done.
    + intros p' Hin. by apply elem_of_nil in Hin.
    + by left.
  - apply Forall_app in Hes as [Hes He]. apply Forall_inv in He.
    rewrite pool_run_snoc. apply one_initialisation_step; [done | by apply IH].
Qed.

Lemma overlapping_getPool_calls_share_one_pool_witness :
  let es := [Db.CallGetPool; Db.CallGetPool; Db.InitSettles 1 (Db.CreateFails "ENOMEM");
             Db.CallGetPool; Db.CallGetPool; Db.InitSettles 2 Db.PoolReady;
             Db.CallGetPool] in
  Forall (λ e, Db.is_close e = false) es ∧
  Db.answers (Db.pool_run es Db.idle)
    = [Db.Waits 1; Db.Waits 1; Db.Waits 2; Db.Waits 2; Db.Ready 3] ∧
  (length (Db.created (Db.pool_log (Db.pool_run es Db.idle))) ≤ 1)%nat ∧
  Db.the_pool (Db.pool_run es Db.idle) = Some 3%positive.
Proof.
  cbv zeta.
  assert (H : Forall (λ e, Db.is_close e = false)
                [Db.CallGetPool; Db.CallGetPool; Db.InitSettles 1 (Db.CreateFails "ENOMEM");
                 Db.CallGetPool; Db.CallGetPool; Db.InitSettles 2 Db.PoolReady;
                 Db.CallGetPool]) by (repeat constructor).
  split; [exact H|]. split; [reflexivity|].
  destruct (overlapping_getPool_calls_share_one_pool _ H) as (Hc & _ & Ha & _).
  split; [exact Hc|].
  apply Ha. vm_compute. apply list_elem_of_In. cbn. tauto.
Defined.
